(** * NextPlay: the recommendation dashboard and its engine contract

    The development follows the repository layout:
    - [Js]        : the handful of JavaScript built-ins the pages rely on
                    (numbers with NaN, truthiness of strings, the
                    interface of [parseFloat], [toString] and [trim]);
    - [Types]     : [frontend/types] (the [Recommendation] record);
    - [Engine]    : the recommendation service the dashboard talks to;
    - [Storage]   : the four localStorage keys of the two pages;
    - [Landing]   : [frontend/app/page.tsx] ([handleSubmit]);
    - [Header]    : the age field of [frontend/components/Header.tsx];
    - [Dashboard] : the dashboard page ([fetchRecommendations],
                    [handleMilestoneComplete], the mount effects) together
                    with [DailyRecommendations];
    - [Service]   : the engine behind [POST /recommend];
    - [Decimal], [Sample] : a runtime and data to compute with.
    The properties come after all definitions. *)

From stdpp Require Import base option list strings gmap sets.
From Stdlib Require Import Ascii QArith Qabs Qminmax Lqa DecimalString.

Close Scope Q_scope.

(* ===================================================================== *)
(** ** JavaScript values used by the pages                                *)
(* ===================================================================== *)

Module Js.

(** A JavaScript [number]: the three non-finite values are kept apart
    because the validation code tests them ([isNaN], [<], [>]). *)
Inductive number : Type :=
| NaN
| NegInfinity
| Infinity
| Finite (q : Q).

Definition isNaN (n : number) : bool :=
  match n with NaN => true | _ => false end.

Definition Qlt_bool (a b : Q) : bool := negb (Qle_bool b a).

(** [a < b]; every comparison with [NaN] is false. *)
Definition lt (a b : number) : bool :=
  match a, b with
  | NaN, _ | _, NaN => false
  | NegInfinity, NegInfinity => false
  | NegInfinity, _ => true
  | _, NegInfinity => false
  | Infinity, _ => false
  | Finite _, Infinity => true
  | Finite x, Finite y => Qlt_bool x y
  end.

Definition gt (a b : number) : bool := lt b a.

(** [a <= b]; every comparison with [NaN] is false. *)
Definition le (a b : number) : bool :=
  match a, b with
  | NaN, _ | _, NaN => false
  | NegInfinity, _ => true
  | _, Infinity => true
  | Infinity, _ => false
  | Finite _, NegInfinity => false
  | Finite x, Finite y => Qle_bool x y
  end.

Definition ge (a b : number) : bool := le b a.

Definition zero : number := Finite 0.
Definition forty_eight : number := Finite 48.
Definition three : number := Finite 3.

(** A finite number of months between 0 and 48, both included. *)
Definition in_range (n : number) : Prop :=
  ∃ a, n = Finite a ∧ (0 <= a)%Q ∧ (a <= 48)%Q.

(** Truthiness of a string: only the empty string is falsy. *)
Definition truthy (s : string) : bool :=
  match s with EmptyString => false | String _ _ => true end.

(** Truthiness of [string | null | undefined]. *)
Definition truthy_opt (s : option string) : bool :=
  match s with Some s => truthy s | None => false end.

(** A thrown value: [err instanceof Error] or not. *)
Inductive Exception : Type :=
| ErrorObject (message : string)
| OtherValue.

(** [hay.includes(needle)]. *)
Definition includes (needle hay : string) : bool :=
  match String.index 0 needle hay with Some _ => true | None => false end.

(** The built-ins whose results the pages only test or pass on:
    [parseFloat], [Number.prototype.toString] and
    [String.prototype.trim]. They are an interface here, so that what is
    proved of the pages holds for whatever the engine's built-ins return;
    [Decimal] below gives an instance that computes. *)
Class Runtime : Type := {
  parseFloat : string → number;
  toString : number → string;
  trim : string → string;
}.

End Js.

(* ===================================================================== *)
(** ** frontend/types                                                     *)
(* ===================================================================== *)

Module Types.

Record Activity : Type := {
  title : string;
  materials : list string;
  instructions : list string;
  benefit : string;
}.

Inductive Category : Type := foundational | likely | challenge.

#[global] Instance Category_eq_dec : EqDecision Category.
Proof. solve_decision. Defined.

Record Recommendation : Type := {
  milestone_id : string;
  milestone_name : string;
  probability : Q;
  discovery_score : Q;
  foundation_score : Q;
  category : Category;
  mastery_age : option Q;
  activity : option Activity;
}.

Definition ids (l : list Recommendation) : list string :=
  milestone_id <$> l.

End Types.

(* ===================================================================== *)
(** ** The recommendation engine                                          *)
(* ===================================================================== *)

(** The dashboard only holds the client side of [POST /recommend]; the
    service behind it ([recommender.py], [utils.py], [main.py]) is
    missing from the sources. Its definitions below follow the
    specification, section by section, with every policy constant the
    specification leaves open gathered in [Policy]. *)

Module Engine.
Import Types.

(** Modelled from the spec: the Milestone record of the data model; the
    catalog module of the service is missing. *)
Record Milestone : Type := {
  id : string;
  name : string;
  domain : string;
  milestone_mastery_age : option Q;
  milestone_activity : option Activity;
}.

(** Modelled from the spec: the TransitionEdge record of the data model;
    the catalog module of the service is missing. *)
Record TransitionEdge : Type := {
  from_id : string;
  to_id : string;
  transition_probability : Q;
}.

(** Modelled from the spec: the Milestone Catalog, immutable reference
    data; its loader in the service is missing. *)
Record Catalog : Type := {
  milestones : list Milestone;
  edges : list TransitionEdge;
}.

(** Modelled from the spec: the lookup [allMilestones()] of the
    Milestone Catalog; the catalog module of the service is missing. *)
Definition allMilestones (cat : Catalog) : list Milestone := milestones cat.

(** Modelled from the spec: the lookup [milestoneById(id)] of the
    Milestone Catalog; the catalog module of the service is missing. *)
Definition milestoneById (cat : Catalog) (i : string) : option Milestone :=
  find (λ m, bool_decide (id m = i)) (milestones cat).

(** Modelled from the spec: the lookup [edgesFrom(id)] of the Milestone
    Catalog; the catalog module of the service is missing. *)
Definition edgesFrom (cat : Catalog) (i : string) : list TransitionEdge :=
  filter (λ e, from_id e = i) (edges cat).

(** Modelled from the spec: the lookup [masteryAge(id)] of the Milestone
    Catalog; the catalog module of the service is missing. *)
Definition masteryAge (cat : Catalog) (i : string) : option Q :=
  milestoneById cat i ≫= milestone_mastery_age.

(** Modelled from the spec: the policy constants its design notes leave
    to the implementer (window widths, score weights, thresholds, the
    shape of the age curve, the size of the list); the service's
    configuration module is missing. *)
Record Policy : Type := {
  N : nat;
  window_behind : Q;
  window_ahead : Q;
  age_curve : Q → Q → Q;
  neutral_foundation : Q;
  weight_discovery : Q;
  weight_foundation : Q;
  high_foundation : Q;
  challenge_from : Q;
  challenge_upto : Q;
}.

(** *** Candidate Generator *)

(** Modelled from the spec: the window around the child's age that
    new-user mode draws its candidates from, lead included; the generator
    of [recommender.py] is missing. *)
Definition within_window (pol : Policy) (age : Q) (m : Milestone) : bool :=
  match milestone_mastery_age m with
  | Some a =>
      Qle_bool (age - window_behind pol) a
      && Qle_bool a (age + window_ahead pol)
  | None => false
  end.

(** Modelled from the spec: the Candidate Generator with its two modes
    and its hard filter on completed milestones; the generator of
    [recommender.py] is missing. *)
Definition candidate_ids (pol : Policy) (cat : Catalog) (age : Q)
    (completed : list string) : list string :=
  let raw :=
    match completed with
    | [] => id <$> List.filter (within_window pol age) (allMilestones cat)
    | _ :: _ => to_id <$> (completed ≫= edgesFrom cat)
    end in
  filter (λ i, i ∉ completed) (remove_dups raw).

(** Modelled from the spec: the pool of eligible next milestones, the
    candidate ids that the catalog knows; the generator of
    [recommender.py] is missing. *)
Definition candidates (pol : Policy) (cat : Catalog) (age : Q)
    (completed : list string) : list Milestone :=
  omap (milestoneById cat) (candidate_ids pol cat age completed).

(** *** Scorer *)

(** Modelled from the spec: the probabilities of the edges from any
    completed milestone into [m]; the scorer of [recommender.py] is
    missing. *)
Definition incoming (cat : Catalog) (completed : list string) (m : string)
    : list Q :=
  transition_probability <$>
    filter (λ e, from_id e ∈ completed ∧ to_id e = m) (edges cat).

(** Modelled from the spec: the maximum of the scorer, 0 when there is
    nothing to take it of; the scorer of [recommender.py] is missing. *)
Definition maximum (qs : list Q) : Q :=
  match qs with
  | [] => 0%Q
  | q :: qs => foldl Qmax q qs
  end.

(** Modelled from the spec: the discovery score, the maximum transition
    probability among the edges from completed milestones into [m], 0 in
    new-user mode; the scorer of [recommender.py] is missing. *)
Definition discovery_score (cat : Catalog) (completed : list string)
    (m : string) : Q :=
  match completed with
  | [] => 0%Q
  | _ :: _ => maximum (incoming cat completed m)
  end.

(** Modelled from the spec: the foundation score, a function of the
    milestone's mastery age and the child's age, neutral when the mastery
    age is unknown; the scorer of [recommender.py] is missing. *)
Definition foundation_score (pol : Policy) (age : Q) (m : Milestone) : Q :=
  match milestone_mastery_age m with
  | Some a => age_curve pol age a
  | None => neutral_foundation pol
  end.

(** Modelled from the spec: a combination that saturates at 1 and never
    goes negative; the scorer of [recommender.py] is missing. *)
Definition saturate (q : Q) : Q := Qmax 0 (Qmin 1 q).

(** Modelled from the spec: the match probability, foundation alone in
    new-user mode and a weighted sum otherwise, saturating at 1 and never
    negative; the scorer of [recommender.py] is missing. *)
Definition probability (pol : Policy) (completed : list string)
    (discovery foundation : Q) : Q :=
  match completed with
  | [] => saturate foundation
  | _ :: _ =>
      saturate (weight_discovery pol * discovery
                + weight_foundation pol * foundation)%Q
  end.

(** *** Categorizer *)

(** Modelled from the spec: a candidate with the scores the Scorer
    gives it; the scorer of [recommender.py] is missing. *)
Record Scored : Type := {
  scored_milestone : Milestone;
  scored_discovery : Q;
  scored_foundation : Q;
  scored_probability : Q;
}.

(** Modelled from the spec: rule 1 of the Categorizer, a high foundation
    score at or past the mastery age; the category helper of [utils.py]
    is missing. *)
Definition foundational_rule (pol : Policy) (age : Q) (c : Scored) : bool :=
  match milestone_mastery_age (scored_milestone c) with
  | Some a =>
      Js.Qlt_bool (high_foundation pol) (scored_foundation c)
      && Qle_bool a age
  | None => false
  end.

(** Modelled from the spec: rule 2 of the Categorizer, a mastery age
    ahead of the child's age within a bounded lead; the category helper
    of [utils.py] is missing. *)
Definition challenge_rule (pol : Policy) (age : Q) (c : Scored) : bool :=
  match milestone_mastery_age (scored_milestone c) with
  | Some a =>
      Js.Qlt_bool (age + challenge_from pol) a
      && Qle_bool a (age + challenge_upto pol)
  | None => false
  end.

(** Modelled from the spec: the Categorizer as an ordered table of
    (predicate, tier) pairs, first match wins, [likely] otherwise; the
    category helper of [utils.py] is missing. *)
Definition rules (pol : Policy) (age : Q) : list ((Scored → bool) * Category) :=
  [ (foundational_rule pol age, foundational);
    (challenge_rule pol age, challenge) ].

(** Modelled from the spec: the tier of a scored candidate, the first
    rule that matches; the category helper of [utils.py] is missing. *)
Definition categorize (pol : Policy) (age : Q) (c : Scored) : Category :=
  match find (λ rule, rule.1 c) (rules pol age) with
  | Some rule => rule.2
  | None => likely
  end.

(** Modelled from the spec: the Scorer applied to one candidate; the
    scorer of [recommender.py] is missing. *)
Definition score (pol : Policy) (cat : Catalog) (age : Q)
    (completed : list string) (m : Milestone) : Scored :=
  let d := discovery_score cat completed (id m) in
  let f := foundation_score pol age m in
  {| scored_milestone := m; scored_discovery := d; scored_foundation := f;
     scored_probability := probability pol completed d f |}.

(** *** Diversity Filter *)

(** Modelled from the spec: the id of a scored candidate; the filter of
    [utils.py] is missing. *)
Definition scored_id (c : Scored) : string := id (scored_milestone c).

(** Modelled from the spec: the domain of a scored candidate; the domain
    helper of [utils.py] is missing. *)
Definition scored_domain (c : Scored) : string := domain (scored_milestone c).

(** Modelled from the spec: the primary order of the Diversity Filter,
    descending probability, ties in pool order; the filter of [utils.py]
    is missing. *)
Fixpoint insert_ranked (c : Scored) (l : list Scored) : list Scored :=
  match l with
  | [] => [c]
  | x :: rest =>
      if Js.Qlt_bool (scored_probability c) (scored_probability x)
      then x :: insert_ranked c rest
      else c :: x :: rest
  end.

(** Modelled from the spec: the pool in descending order of
    probability; the filter of [utils.py] is missing. *)
Definition ranked (l : list Scored) : list Scored :=
  foldr insert_ranked [] l.

(** Modelled from the spec: no two selected milestones share a domain;
    the filter of [utils.py] is missing. Walks the ranked pool and keeps
    the first [n] candidates whose domain is new. *)
Fixpoint distinct_domains (n : nat) (seen : list string) (l : list Scored)
    : list Scored :=
  match n, l with
  | 0, _ | _, [] => []
  | S n', c :: rest =>
      if bool_decide (scored_domain c ∈ seen)
      then distinct_domains n seen rest
      else c :: distinct_domains n' (scored_domain c :: seen) rest
  end.

(** Modelled from the spec: domain exhaustion forces repeats rather than
    an incomplete list; the filter of [utils.py] is missing. The free
    places go to the best-ranked candidates not selected yet. *)
Definition fill_up (n : nat) (pool selected : list Scored) : list Scored :=
  let rest := filter (λ c, scored_id c ∉ scored_id <$> selected) pool in
  selected ++ take (n - length selected) rest.

(** Modelled from the spec: at least one foundational candidate is
    included when one exists in the pool, even from outside the top N;
    the filter of [utils.py] is missing. The best-ranked foundational
    candidate takes the last place. *)
Definition include_foundational (is_foundational : Scored → bool)
    (pool selected : list Scored) : list Scored :=
  if existsb is_foundational selected then selected
  else
    match find is_foundational pool, selected with
    | Some f, _ :: _ => take (length selected - 1) selected ++ [f]
    | _, _ => selected
    end.

(** Modelled from the spec: the Diversity Filter, the bounded final
    selection; the filter of [utils.py] is missing. The age guards its
    overview mentions are not described there and have no counterpart
    here. *)
Definition diversity_filter (n : nat) (is_foundational : Scored → bool)
    (pool : list Scored) : list Scored :=
  let pool := ranked pool in
  let selected := fill_up n pool (distinct_domains n [] pool) in
  ranked (include_foundational is_foundational pool selected).

(** *** Recommendation Service *)

(** Modelled from the spec: the Recommendation output record built from
    a scored candidate; the response model of [main.py] is missing. *)
Definition to_recommendation (pol : Policy) (age : Q) (c : Scored)
    : Recommendation :=
  let m := scored_milestone c in
  {| milestone_id := id m;
     milestone_name := name m;
     Types.probability := scored_probability c;
     Types.discovery_score := scored_discovery c;
     Types.foundation_score := scored_foundation c;
     category := categorize pol age c;
     mastery_age := milestone_mastery_age m;
     activity := milestone_activity m |}.

(** Modelled from the spec: the two outcomes of a request, an
    input-validation failure or a list; the handler of [main.py] is
    missing. *)
Inductive Response : Type :=
| Rejected (detail : string)
| Accepted (recommendations : list Recommendation).

(** Modelled from the spec: the scored candidate pool handed to the
    Diversity Filter; the pipeline of [recommender.py] is missing. *)
Definition pool (pol : Policy) (cat : Catalog) (age : Q)
    (completedIds : list string) : list Scored :=
  score pol cat age completedIds <$> candidates pol cat age completedIds.

(** Modelled from the spec: the public contract of the Recommendation
    Service, [recommend(age, completedIds)]: an age outside [0, 48] is an
    input-validation failure, anything else the filtered list, empty when
    the pool is; the handler of [main.py] is missing. *)
Definition recommend (pol : Policy) (cat : Catalog) (age : Q)
    (completedIds : list string) : Response :=
  if Js.Qlt_bool age 0 || Js.Qlt_bool 48 age
  then Rejected "baby_age_months must be between 0 and 48"
  else
    Accepted
      (to_recommendation pol age <$>
         diversity_filter (N pol)
           (λ c, bool_decide (categorize pol age c = foundational))
           (pool pol cat age completedIds)).

End Engine.

(* ===================================================================== *)
(** ** The browser's localStorage, as the two pages use it                *)
(* ===================================================================== *)

Module Storage.
Import Types.

(** The text kept under a key that is read back with [JSON.parse]:
    either the text [JSON.stringify v] of a value (which parses back to
    [v]), or some other text on which [JSON.parse] throws. *)
Inductive item (A : Type) : Type :=
| Json (v : A)
| Malformed (raw : string).
Arguments Json {A} v.
Arguments Malformed {A} raw.

(** [if (saved)]: stringified JSON is never the empty string. *)
Definition truthy_item {A} (i : item A) : bool :=
  match i with Json _ => true | Malformed raw => Js.truthy raw end.

Record t : Type := {
  babyAge : option string;
  completedMilestones : option (item (list string));
  journeyMilestones : option (item (list Recommendation));
  childName : option string;
}.

Definition empty : t :=
  {| babyAge := None; completedMilestones := None;
     journeyMilestones := None; childName := None |}.

Definition setBabyAge (v : string) (ls : t) : t :=
  {| babyAge := Some v; completedMilestones := completedMilestones ls;
     journeyMilestones := journeyMilestones ls; childName := childName ls |}.

Definition setCompletedMilestones (v : list string) (ls : t) : t :=
  {| babyAge := babyAge ls; completedMilestones := Some (Json v);
     journeyMilestones := journeyMilestones ls; childName := childName ls |}.

Definition setJourneyMilestones (v : list Recommendation) (ls : t) : t :=
  {| babyAge := babyAge ls; completedMilestones := completedMilestones ls;
     journeyMilestones := Some (Json v); childName := childName ls |}.

Definition setChildName (v : string) (ls : t) : t :=
  {| babyAge := babyAge ls; completedMilestones := completedMilestones ls;
     journeyMilestones := journeyMilestones ls; childName := Some v |}.

End Storage.

(** What a page asks of the router. *)
Inductive Route : Type := LandingRoute | DashboardRoute.

(* ===================================================================== *)
(** ** The landing page (frontend/app/page.tsx)                           *)
(* ===================================================================== *)

Module Landing.
Import Js Types.

Record IntakeResponse : Type := {
  child_name : option string;
  age_months : option number;
  completed_milestone_ids : option (list string);
  needs_clarification : bool;
  follow_up_question : option string;
}.

(** What the call of [/intake] comes to: a parsed body, a response that
    is not ok (with the message drawn from its body), or a thrown error. *)
Inductive IntakeOutcome : Type :=
| IntakeOk (data : IntakeResponse)
| IntakeNotOk (status : nat) (errorMessage : string)
| IntakeThrown (e : Exception).

Record State : Type := {
  ageMonths : string;
  story : string;
  isProcessing : bool;
  followUpQuestion : option string;
  error : option string;
}.

Definition initial : State :=
  {| ageMonths := EmptyString; story := EmptyString; isProcessing := false;
     followUpQuestion := None; error := None |}.

Definition setFollowUpQuestion (v : option string) (s : State) : State :=
  {| ageMonths := ageMonths s; story := story s;
     isProcessing := isProcessing s; followUpQuestion := v;
     error := error s |}.

Definition setIsProcessing (v : bool) (s : State) : State :=
  {| ageMonths := ageMonths s; story := story s; isProcessing := v;
     followUpQuestion := followUpQuestion s; error := error s |}.

Definition setError (v : option string) (s : State) : State :=
  {| ageMonths := ageMonths s; story := story s;
     isProcessing := isProcessing s;
     followUpQuestion := followUpQuestion s; error := v |}.

Record Submitted : Type := {
  submitted_state : State;
  submitted_storage : Storage.t;
  pushed : option Route;
  intake_called : bool;
}.

Definition unavailable : IntakeResponse :=
  {| child_name := None; age_months := None;
     completed_milestone_ids := Some []; needs_clarification := false;
     follow_up_question := None |}.

(** The inner [try]: the intake data, or the message of the error that
    leaves it. *)
Definition intakeData (o : IntakeOutcome) : string + IntakeResponse :=
  match o with
  | IntakeOk data => inr data
  | IntakeNotOk status errorMessage =>
      if Nat.eqb status 503
         || includes "Intake Specialist is not available" errorMessage
      then inr unavailable
      else inl errorMessage
  | IntakeThrown (ErrorObject message) => inl message
  | IntakeThrown OtherValue => inl "Unknown error"
  end.

Definition userFriendlyMessage (apiUrl errorMessage : string) : string :=
  if includes "503" errorMessage
     || includes "Intake Specialist is not available" errorMessage
  then "The intake specialist is currently unavailable. Please ensure the backend is properly configured with OPENAI_API_KEY."
  else if includes "500" errorMessage
          || includes "Error processing intake" errorMessage
  then "There was an issue processing your description. Please try again or check your connection."
  else if includes "Failed to fetch" errorMessage
          || includes "NetworkError" errorMessage
          || includes "CORS" errorMessage
  then
    if includes "localhost" apiUrl
    then "Unable to connect to the backend. If you're on the deployed site, please ensure NEXT_PUBLIC_API_URL is configured in Vercel."
    else "Unable to connect to the backend at " +:+ apiUrl
         +:+ ". Please check the connection or try again later."
  else "Our specialist is taking a quick nap. Please try again in a moment.".

Definition handleSubmit `{Runtime} (apiUrl : string) (o : IntakeOutcome)
    (ls : Storage.t) (s : State) : Submitted :=
  let age := parseFloat (ageMonths s) in
  if negb (truthy (trim (ageMonths s))) || isNaN age || lt age zero
     || gt age forty_eight
  then
    {| submitted_state :=
         setFollowUpQuestion
           (Some "Please enter a valid age between 0 and 48 months.") s;
       submitted_storage := ls; pushed := None; intake_called := false |}
  else if negb (truthy (trim (story s)))
  then
    {| submitted_state :=
         setFollowUpQuestion
           (Some "Please tell us about your baby's recent win or what they're starting to do.") s;
       submitted_storage := ls; pushed := None; intake_called := false |}
  else
    let s := setFollowUpQuestion None (setError None (setIsProcessing true s)) in
    match intakeData o with
    | inr data =>
        let babyAge := age in
        let ls :=
          match child_name data with
          | Some n => if truthy n then Storage.setChildName n ls else ls
          | None => ls
          end in
        let ls := Storage.setBabyAge (toString babyAge) ls in
        let ls :=
          Storage.setCompletedMilestones
            (match completed_milestone_ids data with
             | Some l => l
             | None => []
             end) ls in
        {| submitted_state := s; submitted_storage := ls;
           pushed := Some DashboardRoute; intake_called := true |}
    | inl errorMessage =>
        {| submitted_state :=
             setIsProcessing false
               (setError (Some (userFriendlyMessage apiUrl errorMessage)) s);
           submitted_storage := ls; pushed := None; intake_called := true |}
    end.

End Landing.

(* ===================================================================== *)
(** ** The header's age field (frontend/components/Header.tsx)            *)
(* ===================================================================== *)

Module Header.
Import Js.

(** The [onChange] of the age field: the age it hands to [onAgeChange],
    if it calls it at all. *)
Definition onChange `{Runtime} (inputValue : string) : option number :=
  if String.eqb inputValue EmptyString || String.eqb inputValue "."
  then None
  else
    let age := parseFloat inputValue in
    if negb (isNaN age) && ge age zero && le age forty_eight
    then Some age
    else None.

End Header.

(* ===================================================================== *)
(** ** The dashboard page                                                 *)
(* ===================================================================== *)

Module Dashboard.
Import Js Types.

(** The body of a [POST /recommend]. *)
Record Request : Type := {
  baby_age_months : number;
  completed_milestone_ids : list string;
}.

(** The component's [useState] cells. *)
Record State : Type := {
  completedMilestones : list string;
  babyAge : number;
  recommendations : list Recommendation;
  journeyMilestones : list Recommendation;
  sidebarOpen : bool;
  loading : bool;
  error : option string;
  animatingMilestone : option string;
  refillingSlots : gset string;
}.

Definition initial : State :=
  {| completedMilestones := []; babyAge := three; recommendations := [];
     journeyMilestones := []; sidebarOpen := true; loading := true;
     error := None; animatingMilestone := None; refillingSlots := ∅ |}.

Definition setCompletedMilestones (v : list string) (s : State) : State :=
  {| completedMilestones := v; babyAge := babyAge s;
     recommendations := recommendations s;
     journeyMilestones := journeyMilestones s; sidebarOpen := sidebarOpen s;
     loading := loading s; error := error s;
     animatingMilestone := animatingMilestone s;
     refillingSlots := refillingSlots s |}.

Definition setBabyAge (v : number) (s : State) : State :=
  {| completedMilestones := completedMilestones s; babyAge := v;
     recommendations := recommendations s;
     journeyMilestones := journeyMilestones s; sidebarOpen := sidebarOpen s;
     loading := loading s; error := error s;
     animatingMilestone := animatingMilestone s;
     refillingSlots := refillingSlots s |}.

(** [setRecommendations(prev => f prev)]; a plain value is [λ _, v]. *)
Definition setRecommendations
    (f : list Recommendation → list Recommendation) (s : State) : State :=
  {| completedMilestones := completedMilestones s; babyAge := babyAge s;
     recommendations := f (recommendations s);
     journeyMilestones := journeyMilestones s; sidebarOpen := sidebarOpen s;
     loading := loading s; error := error s;
     animatingMilestone := animatingMilestone s;
     refillingSlots := refillingSlots s |}.

Definition setJourneyMilestones
    (f : list Recommendation → list Recommendation) (s : State) : State :=
  {| completedMilestones := completedMilestones s; babyAge := babyAge s;
     recommendations := recommendations s;
     journeyMilestones := f (journeyMilestones s);
     sidebarOpen := sidebarOpen s;
     loading := loading s; error := error s;
     animatingMilestone := animatingMilestone s;
     refillingSlots := refillingSlots s |}.

Definition setLoading (v : bool) (s : State) : State :=
  {| completedMilestones := completedMilestones s; babyAge := babyAge s;
     recommendations := recommendations s;
     journeyMilestones := journeyMilestones s; sidebarOpen := sidebarOpen s;
     loading := v; error := error s;
     animatingMilestone := animatingMilestone s;
     refillingSlots := refillingSlots s |}.

Definition setError (v : option string) (s : State) : State :=
  {| completedMilestones := completedMilestones s; babyAge := babyAge s;
     recommendations := recommendations s;
     journeyMilestones := journeyMilestones s; sidebarOpen := sidebarOpen s;
     loading := loading s; error := v;
     animatingMilestone := animatingMilestone s;
     refillingSlots := refillingSlots s |}.

Definition setAnimatingMilestone (v : option string) (s : State) : State :=
  {| completedMilestones := completedMilestones s; babyAge := babyAge s;
     recommendations := recommendations s;
     journeyMilestones := journeyMilestones s; sidebarOpen := sidebarOpen s;
     loading := loading s; error := error s;
     animatingMilestone := v;
     refillingSlots := refillingSlots s |}.

Definition setRefillingSlots
    (f : gset string → gset string) (s : State) : State :=
  {| completedMilestones := completedMilestones s; babyAge := babyAge s;
     recommendations := recommendations s;
     journeyMilestones := journeyMilestones s; sidebarOpen := sidebarOpen s;
     loading := loading s; error := error s;
     animatingMilestone := animatingMilestone s;
     refillingSlots := f (refillingSlots s) |}.

(** The state a render shows to the callbacks it creates:
    [fetchRecommendations] is a [useCallback] over [babyAge] and
    [completedMilestones], [handleMilestoneComplete] reads
    [completedMilestones]. *)
Record Render : Type := {
  seen_babyAge : number;
  seen_completedMilestones : list string;
}.

Definition render_of (s : State) : Render :=
  {| seen_babyAge := babyAge s;
     seen_completedMilestones := completedMilestones s |}.

(** *** The first effect: load from localStorage, or redirect *)

(** [if (saved) { try { set(JSON.parse(saved)) } catch { log } }] *)
Definition loadCompleted (ls : Storage.t) (s : State) : State :=
  match Storage.completedMilestones ls with
  | Some saved =>
      if Storage.truthy_item saved then
        match saved with
        | Storage.Json v => setCompletedMilestones v s
        | Storage.Malformed _ => s
        end
      else s
  | None => s
  end.

Definition loadJourney (ls : Storage.t) (s : State) : State :=
  match Storage.journeyMilestones ls with
  | Some savedJourney =>
      if Storage.truthy_item savedJourney then
        match savedJourney with
        | Storage.Json v => setJourneyMilestones (λ _, v) s
        | Storage.Malformed _ => s
        end
      else s
  | None => s
  end.

Definition loadEffect `{Runtime} (ls : Storage.t) (s : State)
    : State * option Route :=
  match Storage.babyAge ls with
  | None => (s, Some LandingRoute)
  | Some savedAge =>
      if negb (truthy savedAge) then (s, Some LandingRoute)
      else
        let age := parseFloat savedAge in
        if isNaN age || lt age zero || gt age forty_eight
        then (s, Some LandingRoute)
        else (loadJourney ls (loadCompleted ls (setBabyAge age s)), None)
  end.

(** *** fetchRecommendations *)

(** What [await fetch(...)] and the reads of the response come to. *)
Inductive FetchOutcome : Type :=
| Thrown (e : Exception)
| NotOk (statusText errorText : string)
| Ok (data_recommendations : option (list Recommendation)).

Definition request (r : Render) (overrideCompleted : option (list string))
    : Request :=
  {| baby_age_months := seen_babyAge r;
     completed_milestone_ids :=
       match overrideCompleted with
       | Some l => l
       | None => seen_completedMilestones r
       end |}.

(** The replacement the refill branch looks for: the first of the new
    recommendations that is not in the list yet. *)
Definition availableRec (newRecommendations prev : list Recommendation)
    : option Recommendation :=
  let existingIds : gset string := list_to_set (milestone_id <$> prev) in
  find (λ r, bool_decide (milestone_id r ∉ existingIds)) newRecommendations.

(** The [setRecommendations] updater of the refill branch. *)
Definition refillSlot (slotId : string)
    (newRecommendations prev : list Recommendation) : list Recommendation :=
  match availableRec newRecommendations prev with
  | Some availableRec =>
      let filtered := filter (λ r, milestone_id r ≠ slotId) prev in
      take 3 (filtered ++ [availableRec])
  | None => filter (λ r, milestone_id r ≠ slotId) prev
  end.

(** The part of [fetchRecommendations] that runs before [await fetch]. *)
Definition fetchStart (slotId : option string) (s : State) : State :=
  let s := if truthy_opt slotId then s else setLoading true s in
  setError None s.

(** The value the [try] block works with, or the message of the thrown
    error. *)
Definition settle (o : FetchOutcome) : string + list Recommendation :=
  match o with
  | Thrown (ErrorObject message) => inl message
  | Thrown OtherValue => inl "Failed to fetch recommendations"
  | NotOk statusText errorText =>
      inl ("API error: " +:+ statusText +:+ " - " +:+ errorText)
  | Ok (Some l) => inr l
  | Ok None => inr []
  end.

Definition finallyBlock (slotId : option string) (s : State) : State :=
  if truthy_opt slotId then s else setLoading false s.

(** The part of [fetchRecommendations] that runs once the response (or
    the failure) is there. *)
Definition fetchSettle (slotId : option string) (o : FetchOutcome)
    (s : State) : State :=
  match settle o with
  | inr newRecommendations =>
      let s :=
        match slotId with
        | Some slot =>
            if truthy slot then
              setRefillingSlots (λ prev, prev ∖ {[slot]})
                (setRecommendations (refillSlot slot newRecommendations) s)
            else setRecommendations (λ _, newRecommendations) s
        | None => setRecommendations (λ _, newRecommendations) s
        end in
      finallyBlock slotId s
  | inl errorMessage =>
      let s := setError (Some errorMessage) s in
      let s :=
        if truthy_opt slotId then s
        else setLoading false (setRecommendations (λ _, []) s) in
      finallyBlock slotId s
  end.

(** One call of [fetchRecommendations] with nothing in between. *)
Definition fetchRecommendations (slotId : option string) (o : FetchOutcome)
    (s : State) : State :=
  fetchSettle slotId o (fetchStart slotId s).

(** *** The second effect: fetch when the age or the completed list change *)

Definition fetchEffect (r : Render) : option Request :=
  if gt (seen_babyAge r) zero then Some (request r None) else None.

(** Mounting the page: both effects run after the first render, in the
    order they are declared, and both see that render's state. *)
Record Mounted : Type := {
  mounted_state : State;
  pushed : option Route;
  requests : list Request;
}.

Definition mount `{Runtime} (ls : Storage.t) : Mounted :=
  let '(s, route) := loadEffect ls initial in
  match fetchEffect (render_of initial) with
  | Some req =>
      {| mounted_state := fetchStart None s; pushed := route;
         requests := [req] |}
  | None => {| mounted_state := s; pushed := route; requests := [] |}
  end.

(** *** handleMilestoneComplete *)

(** What the two [setTimeout] calls leave to run later. The refill keeps
    the [fetchRecommendations] of the render that created the handler,
    hence the age that render saw. *)
Inductive Task : Type :=
| AddToJourney (milestone : Recommendation)
| Refill (r : Render) (milestoneId : string) (updatedCompleted : list string).

Record Completed : Type := {
  completed_state : State;
  completed_storage : Storage.t;
  timers : list (nat * Task);
}.

Definition handleMilestoneComplete (r : Render) (milestone : Recommendation)
    (ls : Storage.t) (s : State) : Completed :=
  let milestoneId := milestone_id milestone in
  let s := setAnimatingMilestone (Some milestoneId) s in
  let s := setRefillingSlots (λ prev, prev ∪ {[milestoneId]}) s in
  let s :=
    setRecommendations (filter (λ rec, milestone_id rec ≠ milestoneId)) s in
  let updatedCompleted := seen_completedMilestones r ++ [milestoneId] in
  let s := setCompletedMilestones updatedCompleted s in
  let ls := Storage.setCompletedMilestones updatedCompleted ls in
  {| completed_state := s; completed_storage := ls;
     timers := [(100, AddToJourney milestone);
                (600, Refill r milestoneId updatedCompleted)] |}.

(** A timer fires: the state and storage it leaves, and the request it
    sends, if any. *)
Definition fire (t : Task) (ls : Storage.t) (s : State)
    : State * Storage.t * option Request :=
  match t with
  | AddToJourney milestone =>
      let updated := journeyMilestones s ++ [milestone] in
      (setJourneyMilestones (λ _, updated) s,
       Storage.setJourneyMilestones updated ls, None)
  | Refill r milestoneId updatedCompleted =>
      let s := setAnimatingMilestone None s in
      (fetchStart (Some milestoneId) s, ls,
       Some (request r (Some updatedCompleted)))
  end.

(** *** The header's callbacks *)

Definition handleAgeChange `{Runtime} (newAge : number) (ls : Storage.t)
    (s : State) : State * Storage.t :=
  (setBabyAge newAge s, Storage.setBabyAge (toString newAge) ls).

Definition onClearAll (s : State) : State :=
  setBabyAge three
    (setRecommendations (λ _, [])
       (setJourneyMilestones (λ _, [])
          (setCompletedMilestones [] s))).

(** *** What the page shows *)

Record PlayCard : Type := {
  card_category : Category;
  card_title : string;
  milestoneName : string;
  card_benefit : string;
  card_instructions : list string;
  card_materials : list string;
  card_probability : Q;
  foundationScore : Q;
  masteryAge : option Q;
  milestoneId : string;
  isCompleted : bool;
}.

Definition playCard (completedMilestoneIds : list string)
    (rec : Recommendation) : PlayCard :=
  {| card_category := category rec;
     card_title :=
       match activity rec with
       | Some a => if truthy (title a) then title a else milestone_name rec
       | None => milestone_name rec
       end;
     milestoneName := milestone_name rec;
     card_benefit :=
       match activity rec with
       | Some a => benefit a
       | None => EmptyString
       end;
     card_instructions :=
       match activity rec with Some a => instructions a | None => [] end;
     card_materials :=
       match activity rec with Some a => materials a | None => [] end;
     card_probability := probability rec;
     foundationScore := foundation_score rec;
     masteryAge := mastery_age rec;
     milestoneId := milestone_id rec;
     isCompleted :=
       bool_decide (milestone_id rec ∈ completedMilestoneIds) |}.

Inductive DailyView : Type :=
| NoRecommendations (text : string)
| Cards (cards : list PlayCard) (skeletons placeholders : nat).

Definition DailyRecommendations (recommendations : list Recommendation)
    (completedMilestoneIds : list string) (refillingSlots : gset string)
    : DailyView :=
  if Nat.eqb (length recommendations) 0
  then NoRecommendations "No recommendations available at this time."
  else
    Cards (playCard completedMilestoneIds <$> recommendations)
      (size refillingSlots)
      (if Nat.eqb (size refillingSlots) 0
          && Nat.ltb (length recommendations) 3
       then 3 - length recommendations else 0).

Inductive View : Type :=
| LoadingSkeleton
| ErrorPanel (heading message : string)
| Daily (v : DailyView).

Definition view (s : State) : View :=
  if loading s then LoadingSkeleton
  else
    match error s with
    | Some message =>
        if truthy message
        then ErrorPanel "Unable to load recommendations" message
        else Daily (DailyRecommendations (recommendations s)
                      (completedMilestones s) (refillingSlots s))
    | None =>
        Daily (DailyRecommendations (recommendations s)
                 (completedMilestones s) (refillingSlots s))
    end.

(** *** Invariants of the displayed list *)


(** At most three cards, no milestone twice. *)
Definition Bounded (l : list Recommendation) : Prop :=
  length l ≤ 3 ∧ NoDup (ids l).

End Dashboard.

(* ===================================================================== *)
(** ** The service as the dashboard reaches it                            *)
(* ===================================================================== *)

Module Service.
Import Js Types.

(** Modelled from the spec: the external interface of [recommend], a
    request [{baby_age_months, completed_milestone_ids}] answered by
    [{recommendations}] or rejected; the route of [main.py] is missing.
    A non-finite age does not survive [JSON.stringify] as a number. *)
Definition serve (pol : Engine.Policy) (cat : Engine.Catalog)
    (req : Dashboard.Request) : Dashboard.FetchOutcome :=
  match Dashboard.baby_age_months req with
  | Finite age =>
      match Engine.recommend pol cat age
              (Dashboard.completed_milestone_ids req) with
      | Engine.Accepted l => Dashboard.Ok (Some l)
      | Engine.Rejected detail =>
          Dashboard.NotOk "Unprocessable Entity" detail
      end
  | NaN | NegInfinity | Infinity =>
      Dashboard.NotOk "Unprocessable Entity"
        "baby_age_months must be a number"
  end.

End Service.

(* ===================================================================== *)
(** ** A runtime that computes: decimal numerals                          *)
(* ===================================================================== *)

Module Decimal.
Import Js.

(** A string holds the UTF-8 bytes of the text. The white space and line
    terminators that [trim] and [parseFloat] skip, as byte sequences:
    U+0009 to U+000D, U+0020, U+00A0, U+1680, U+2000 to U+200A, U+2028,
    U+2029, U+202F, U+205F, U+3000 and U+FEFF. *)
Definition white_space : list (list N) :=
  [ [9]; [10]; [11]; [12]; [13]; [32];
    [194; 160];
    [225; 154; 128];
    [226; 128; 128]; [226; 128; 129]; [226; 128; 130]; [226; 128; 131];
    [226; 128; 132]; [226; 128; 133]; [226; 128; 134]; [226; 128; 135];
    [226; 128; 136]; [226; 128; 137]; [226; 128; 138];
    [226; 128; 168]; [226; 128; 169]; [226; 128; 175];
    [226; 129; 159];
    [227; 128; 128];
    [239; 187; 191] ]%N.

(** [l] without the prefix [p], when it starts with it. *)
Fixpoint after (p l : list N) : option (list N) :=
  match p, l with
  | [], _ => Some l
  | a :: p, b :: l => if N.eqb a b then after p l else None
  | _ :: _, [] => None
  end.

(** [l] without the first of the sequences [seqs] it starts with. *)
Fixpoint after_any (seqs : list (list N)) (l : list N)
    : option (list N) :=
  match seqs with
  | p :: seqs =>
      match after p l with
      | Some rest => Some rest
      | None => after_any seqs l
      end
  | [] => None
  end.

(** [l] without the sequences of [seqs] at its head; [fuel] bounds the
    number of sequences removed, the length of [l] is enough. *)
Fixpoint skip (seqs : list (list N)) (fuel : nat) (l : list N) : list N :=
  match fuel with
  | 0 => l
  | S fuel =>
      match after_any seqs l with
      | Some rest => skip seqs fuel rest
      | None => l
      end
  end.

Definition bytes (s : string) : list N :=
  Ascii.N_of_ascii <$> String.list_ascii_of_string s.

Definition of_bytes (l : list N) : string :=
  String.string_of_list_ascii (Ascii.ascii_of_N <$> l).

Definition strip_start (s : string) : string :=
  let l := bytes s in
  of_bytes (skip white_space (length l) l).

Definition strip_end (s : string) : string :=
  let l := rev (bytes s) in
  of_bytes (rev (skip (@rev N <$> white_space) (length l) l)).

(** [String.prototype.trim]. *)
Definition strip (s : string) : string := strip_end (strip_start s).

(** U+00A0, the no-break space. *)
Definition nbsp : string := of_bytes [194; 160]%N.

(** U+3000, the ideographic space. *)
Definition wide_space : string := of_bytes [227; 128; 128]%N.

Definition digit (c : Ascii.ascii) : option N :=
  let n := Ascii.N_of_ascii c in
  if (N.leb 48 n && N.leb n 57)%bool then Some (n - 48)%N else None.

(** The longest run of digits at the head of [l]: its value, its length
    and what follows. *)
Fixpoint digits (acc : N) (count : nat) (l : list Ascii.ascii)
    : N * nat * list Ascii.ascii :=
  match l with
  | c :: rest =>
      match digit c with
      | Some d => digits (acc * 10 + d)%N (S count) rest
      | None => (acc, count, l)
      end
  | [] => (acc, count, [])
  end.

Definition sign (l : list Ascii.ascii) : bool * list Ascii.ascii :=
  match l with
  | c :: rest =>
      if Ascii.eqb c "-"%char then (true, rest)
      else if Ascii.eqb c "+"%char then (false, rest)
      else (false, l)
  | [] => (false, [])
  end.

Definition exponent (l : list Ascii.ascii) : Z :=
  match l with
  | c :: rest =>
      if (Ascii.eqb c "e"%char || Ascii.eqb c "E"%char)%bool then
        let '(neg, rest) := sign rest in
        let '(e, count, _) := digits 0 0 rest in
        if Nat.eqb count 0 then 0%Z
        else if neg then (- Z.of_N e)%Z else Z.of_N e
      else 0%Z
  | [] => 0%Z
  end.

(** [parseFloat] on a decimal numeral: leading white space, a sign,
    [Infinity] or digits with an optional fraction and exponent; what
    follows is ignored. The value is the numeral's exact value, not
    rounded to a double, so it is the runtime's result on numerals that a
    double holds exactly (50, 6.5, -1) and those are what it is run on
    below. *)
Definition parse (s : string) : number :=
  let l := String.list_ascii_of_string (strip_start s) in
  let '(neg, l) := sign l in
  if String.prefix "Infinity" (String.string_of_list_ascii l)
  then if neg then NegInfinity else Infinity
  else
    let '(whole, n_whole, l) := digits 0 0 l in
    let '(frac, n_frac, l) :=
      match l with
      | c :: rest =>
          if Ascii.eqb c "."%char then digits 0 0 rest else (0%N, 0, l)
      | [] => (0%N, 0, [])
      end in
    if Nat.eqb (n_whole + n_frac) 0 then NaN
    else
      let mantissa :=
        (inject_Z (Z.of_N whole)
         + inject_Z (Z.of_N frac) / inject_Z (10 ^ Z.of_nat n_frac))%Q in
      let scaled := (mantissa * Qpower 10 (exponent l))%Q in
      Finite (Qred (if neg then - scaled else scaled)%Q).

(** The decimal expansion of [r / d] after the point, at most [fuel]
    digits, stopping when it ends. *)
Fixpoint fraction (fuel : nat) (r d : N) : string :=
  match fuel with
  | 0 => EmptyString
  | S fuel =>
      if N.eqb r 0 then EmptyString
      else
        let r := (r * 10)%N in
        NilZero.string_of_uint (N.to_uint (r / d))
        +:+ fraction fuel (r mod d)%N d
  end.

(** [Number.prototype.toString] on the non-finite values and on numbers
    with a short decimal expansion. *)
Definition print (n : number) : string :=
  match n with
  | NaN => "NaN"
  | Infinity => "Infinity"
  | NegInfinity => "-Infinity"
  | Finite q =>
      let q := Qred q in
      let d := Npos (Qden q) in
      let a := Z.to_N (Z.abs (Qnum q)) in
      let whole := NilZero.string_of_uint (N.to_uint (a / d)) in
      let frac := fraction 17 (a mod d)%N d in
      (if Z.ltb (Qnum q) 0 then "-" else EmptyString)
      +:+ whole
      +:+ (if truthy frac then "." +:+ frac else EmptyString)
  end.

#[global] Instance runtime : Runtime :=
  {| parseFloat := parse; toString := print; trim := strip |}.

End Decimal.

(* ===================================================================== *)
(** ** Sample data                                                        *)
(* ===================================================================== *)

Module Sample.
Import Types.

Definition triangle (age a : Q) : Q :=
  Qmax 0 (1 - Qabs (age - a) / 12)%Q.

Definition policy : Engine.Policy :=
  {| Engine.N := 3;
     Engine.window_behind := 3;
     Engine.window_ahead := 3;
     Engine.age_curve := triangle;
     Engine.neutral_foundation := (1 # 2)%Q;
     Engine.weight_discovery := (6 # 10)%Q;
     Engine.weight_foundation := (4 # 10)%Q;
     Engine.high_foundation := (8 # 10)%Q;
     Engine.challenge_from := 1;
     Engine.challenge_upto := 3 |}.

Definition milestone (i n d : string) (a : option Q) : Engine.Milestone :=
  {| Engine.id := i; Engine.name := n; Engine.domain := d;
     Engine.milestone_mastery_age := a;
     Engine.milestone_activity := None |}.

Definition edge (f t : string) (p : Q) : Engine.TransitionEdge :=
  {| Engine.from_id := f; Engine.to_id := t;
     Engine.transition_probability := p |}.

(** Two completed milestones lead to [ddigmd063], one by a 0.9 edge and
    one by a 0.2 edge. *)
Definition catalog : Engine.Catalog :=
  {| Engine.milestones :=
       [ milestone "ddicmm029" "Reacts when spoken to" "cm" (Some 1%Q);
         milestone "ddigmd055" "Lifts head when prone" "gm" (Some 3%Q);
         milestone "ddigmd063" "Sits in stable position without support"
           "gm" (Some (13 # 2)%Q);
         milestone "ddigmm066" "Crawls forward" "gm" (Some 9%Q);
         milestone "ddifmd011" "Grasps a toy within reach" "fm" (Some 5%Q);
         milestone "ddicmm036" "Babbles while playing" "cm" None ];
     Engine.edges :=
       [ edge "ddigmd055" "ddigmd063" (9 # 10)%Q;
         edge "ddicmm029" "ddigmd063" (2 # 10)%Q;
         edge "ddigmd055" "ddifmd011" (5 # 10)%Q;
         edge "ddicmm029" "ddicmm036" (7 # 10)%Q;
         edge "ddigmd055" "ddigmm066" (1 # 10)%Q ] |}.


Definition rec (i : string) (p : Q) : Recommendation :=
  {| milestone_id := i; milestone_name := i; probability := p;
     discovery_score := p; foundation_score := p; category := likely;
     mastery_age := None; activity := None |}.

Definition recA : Recommendation := rec "A" (9 # 10)%Q.
Definition recB : Recommendation := rec "B" (8 # 10)%Q.
Definition recC : Recommendation := rec "C" (7 # 10)%Q.
Definition recD : Recommendation := rec "D" (6 # 10)%Q.
Definition recE : Recommendation := rec "E" (5 # 10)%Q.

Definition showing (l : list Recommendation) : Dashboard.State :=
  Dashboard.setLoading false
    (Dashboard.setRecommendations (λ _, l) Dashboard.initial).

Definition stored_age (v : string) : Storage.t :=
  Storage.setBabyAge v Storage.empty.

Definition typed (age story : string) : Landing.State :=
  {| Landing.ageMonths := age; Landing.story := story;
     Landing.isProcessing := false; Landing.followUpQuestion := None;
     Landing.error := None |}.

End Sample.

(* ===================================================================== *)
(** ** The profile menu (frontend/components/Header.tsx)                  *)
(* ===================================================================== *)

Module Profile.
Import Js.

(** [localStorage.removeItem], key by key. *)
Definition removeBabyAge (ls : Storage.t) : Storage.t :=
  {| Storage.babyAge := None;
     Storage.completedMilestones := Storage.completedMilestones ls;
     Storage.journeyMilestones := Storage.journeyMilestones ls;
     Storage.childName := Storage.childName ls |}.

Definition removeCompletedMilestones (ls : Storage.t) : Storage.t :=
  {| Storage.babyAge := Storage.babyAge ls;
     Storage.completedMilestones := None;
     Storage.journeyMilestones := Storage.journeyMilestones ls;
     Storage.childName := Storage.childName ls |}.

Definition removeJourneyMilestones (ls : Storage.t) : Storage.t :=
  {| Storage.babyAge := Storage.babyAge ls;
     Storage.completedMilestones := Storage.completedMilestones ls;
     Storage.journeyMilestones := None;
     Storage.childName := Storage.childName ls |}.

Definition removeChildName (ls : Storage.t) : Storage.t :=
  {| Storage.babyAge := Storage.babyAge ls;
     Storage.completedMilestones := Storage.completedMilestones ls;
     Storage.journeyMilestones := Storage.journeyMilestones ls;
     Storage.childName := None |}.

(** [handleClearAll]: the four keys go, the dashboard's [onClearAll]
    runs, and the router is sent to the landing page. *)
Definition handleClearAll (ls : Storage.t) (s : Dashboard.State)
    : Dashboard.State * Storage.t * option Route :=
  let ls :=
    removeChildName
      (removeJourneyMilestones
         (removeCompletedMilestones (removeBabyAge ls))) in
  (Dashboard.onClearAll s, ls, Some LandingRoute).

(** The button Reset Progress: three keys go, then
    [window.location.reload()] mounts the page afresh. *)
Definition resetProgress `{Runtime} (ls : Storage.t)
    : Storage.t * Dashboard.Mounted :=
  let ls :=
    removeJourneyMilestones
      (removeBabyAge (removeCompletedMilestones ls)) in
  (ls, Dashboard.mount ls).

End Profile.

(* ===================================================================== *)
(** * Properties                                                          *)
(* ===================================================================== *)

(** ** The model at work *)

Module Examples.
Import Js Types.

Example parse_numerals :
  Decimal.parse "50" = Finite 50
  ∧ Decimal.parse "-1" = Finite (-1)
  ∧ Decimal.parse "6.5" = Finite (13 # 2)
  ∧ Decimal.parse "1e2" = Finite 100
  ∧ Decimal.parse EmptyString = NaN
  ∧ Decimal.parse "six" = NaN
  ∧ Decimal.parse "-Infinity" = NegInfinity.
Proof. repeat split. Qed.

Example print_numerals :
  Decimal.print (Finite 50) = "50"
  ∧ Decimal.print (Finite (13 # 2)) = "6.5"
  ∧ Decimal.print (Finite (-1)) = "-1"
  ∧ Decimal.print NaN = "NaN".
Proof. repeat split. Qed.

Example trim_spaces :
  trim "  6.5 " = "6.5"
  ∧ trim "   " = EmptyString
  ∧ trim (Decimal.nbsp +:+ " " +:+ Decimal.wide_space) = EmptyString
  ∧ trim (Decimal.nbsp +:+ "sat up" +:+ Decimal.nbsp) = "sat up"
  ∧ Decimal.parse (Decimal.nbsp +:+ "6.5") = Finite (13 # 2).
Proof. repeat split. Qed.

Example returning_user :
  match Engine.recommend Sample.policy Sample.catalog 6
          ["ddigmd055"; "ddicmm029"] with
  | Engine.Accepted recs =>
      ids recs = ["ddigmd063"; "ddifmd011"; "ddicmm036"]
      ∧ category <$> recs = [likely; foundational; likely]
  | Engine.Rejected _ => False
  end.
Proof. by vm_compute. Qed.

Example out_of_range_rejected :
  Engine.recommend Sample.policy Sample.catalog 50 []
  = Engine.Rejected "baby_age_months must be between 0 and 48"
  ∧ Engine.recommend Sample.policy Sample.catalog (-1) []
    = Engine.Rejected "baby_age_months must be between 0 and 48".
Proof. split; reflexivity. Qed.

Example refill_appends :
  Dashboard.refillSlot "A" [Sample.recB; Sample.recE]
    [Sample.recB; Sample.recC]
  = [Sample.recB; Sample.recC; Sample.recE].
Proof. by vm_compute. Qed.

End Examples.

(** ** The refill of a slot *)

Module RefillFacts.
Import Js Types Dashboard.

Lemma truthy_opt_Some slot :
  truthy slot = true → truthy_opt (Some slot) = true.
Proof. done. Qed.

Lemma availableRec_Some newRecommendations prev rec :
  availableRec newRecommendations prev = Some rec →
  rec ∈ newRecommendations ∧ milestone_id rec ∉ ids prev.
Proof.
  unfold availableRec. intros Hfind.
  apply find_some in Hfind as [Hin Hfresh].
  apply list_elem_of_In in Hin.
  apply bool_decide_eq_true in Hfresh.
  by rewrite not_elem_of_list_to_set in Hfresh.
Qed.

Lemma availableRec_None newRecommendations prev :
  availableRec newRecommendations prev = None ↔
  ∀ rec, rec ∈ newRecommendations → milestone_id rec ∈ ids prev.
Proof.
  unfold availableRec. split.
  - intros Hfind rec Hin. apply list_elem_of_In in Hin.
    pose proof (find_none _ _ Hfind rec Hin) as Hused. cbv beta in Hused.
    apply bool_decide_eq_false in Hused.
    rewrite not_elem_of_list_to_set in Hused.
    destruct (decide (milestone_id rec ∈ ids prev)); [done|].
    by destruct Hused.
  - intros Hall.
    destruct (find _ newRecommendations) as [rec|] eqn:Hfind; [|done].
    apply find_some in Hfind as [Hin Hfresh].
    apply list_elem_of_In in Hin.
    apply bool_decide_eq_true in Hfresh.
    rewrite not_elem_of_list_to_set in Hfresh.
    by destruct Hfresh; apply Hall.
Qed.

(** The replacement is the first new recommendation, in the order of the
    response, whose milestone is not displayed. *)
Lemma availableRec_first newRecommendations prev rec :
  availableRec newRecommendations prev = Some rec →
  ∃ before after,
    newRecommendations = before ++ rec :: after
    ∧ ∀ r, r ∈ before → milestone_id r ∈ ids prev.
Proof.
  unfold availableRec.
  induction newRecommendations as [|r l IH]; [done|]. cbn [find].
  destruct (bool_decide _) eqn:Hr.
  - intros [= ->]. exists [], l. split; [done|].
    intros r' Hr'. by apply elem_of_nil in Hr'.
  - intros Hfind. destruct (IH Hfind) as (before & after & -> & Hbefore).
    exists (r :: before), after. split; [done|].
    intros r' [->|Hr']%elem_of_cons; [|by apply Hbefore].
    apply bool_decide_eq_false in Hr.
    rewrite not_elem_of_list_to_set in Hr.
    destruct (decide (milestone_id r ∈ ids prev)); [done|]. by destruct Hr.
Qed.

Lemma filter_slot_sublist slot (prev : list Recommendation) :
  filter (λ r, milestone_id r ≠ slot) prev `sublist_of` prev.
Proof. apply sublist_filter. Qed.

Lemma filter_slot_ids slot (prev : list Recommendation) :
  slot ∉ ids (filter (λ r, milestone_id r ≠ slot) prev).
Proof.
  unfold ids. intros (r & Hid & Hin)%list_elem_of_fmap.
  apply list_elem_of_filter in Hin as [Hne _]. by destruct Hne.
Qed.

Lemma filter_slot_NoDup slot (prev : list Recommendation) :
  NoDup (ids prev) → NoDup (ids (filter (λ r, milestone_id r ≠ slot) prev)).
Proof.
  intros Hnd. eapply sublist_NoDup; [exact Hnd|].
  unfold ids. apply fmap_sublist, filter_slot_sublist.
Qed.

Lemma filter_slot_Bounded slot (prev : list Recommendation) :
  Bounded prev → Bounded (filter (λ r, milestone_id r ≠ slot) prev).
Proof.
  intros [Hlen Hnd]. split; [|by apply filter_slot_NoDup].
  pose proof (length_filter (λ r, milestone_id r ≠ slot) prev). lia.
Qed.

Lemma refillSlot_Some slot newRecommendations prev rec :
  availableRec newRecommendations prev = Some rec →
  refillSlot slot newRecommendations prev
  = take 3 (filter (λ r, milestone_id r ≠ slot) prev ++ [rec]).
Proof. unfold refillSlot. by intros ->. Qed.

Lemma refillSlot_None slot newRecommendations prev :
  availableRec newRecommendations prev = None →
  refillSlot slot newRecommendations prev
  = filter (λ r, milestone_id r ≠ slot) prev.
Proof. unfold refillSlot. by intros ->. Qed.

(** Whatever the response holds, the refill leaves a list without
    repeated milestones. *)
Lemma refillSlot_NoDup slot newRecommendations prev :
  NoDup (ids prev) → NoDup (ids (refillSlot slot newRecommendations prev)).
Proof.
  intros Hnd.
  destruct (availableRec newRecommendations prev) as [rec|] eqn:Hav.
  - rewrite (refillSlot_Some _ _ _ _ Hav).
    apply availableRec_Some in Hav as [_ Hfresh].
    eapply sublist_NoDup; [|unfold ids; apply fmap_sublist, sublist_take].
    unfold ids. rewrite fmap_app. apply NoDup_app.
    split; [by apply filter_slot_NoDup|]. split; [|apply NoDup_singleton].
    intros i Hi ->%list_elem_of_singleton. apply Hfresh.
    unfold ids. eapply elem_of_sublist; [exact Hi|].
    apply fmap_sublist, filter_slot_sublist.
  - rewrite (refillSlot_None _ _ _ Hav). by apply filter_slot_NoDup.
Qed.

Lemma refillSlot_length slot newRecommendations prev :
  length prev ≤ 3 → length (refillSlot slot newRecommendations prev) ≤ 3.
Proof.
  intros Hlen.
  destruct (availableRec newRecommendations prev) as [rec|] eqn:Hav.
  - rewrite (refillSlot_Some _ _ _ _ Hav), length_take. lia.
  - rewrite (refillSlot_None _ _ _ Hav).
    pose proof (length_filter (λ r, milestone_id r ≠ slot) prev). lia.
Qed.


End RefillFacts.

(** ** The engine's selection *)

Module EngineFacts.
Import Types Engine.

Lemma NoDup_fmap_eq {A B} (g : A → B) (l : list A) x y :
  NoDup (g <$> l) → x ∈ l → y ∈ l → g x = g y → x = y.
Proof.
  induction l as [|a l IH]; cbn; [by intros _ ?%elem_of_nil|].
  intros [Ha Hnd]%NoDup_cons Hx Hy Hg.
  apply elem_of_cons in Hx as [->|Hx]; apply elem_of_cons in Hy as [->|Hy].
  - done.
  - destruct Ha. rewrite Hg. by apply list_elem_of_fmap_2.
  - destruct Ha. rewrite <- Hg. by apply list_elem_of_fmap_2.
  - by apply IH.
Qed.

Lemma insert_ranked_perm c l : insert_ranked c l ≡ₚ c :: l.
Proof.
  induction l as [|x l IH]; [done|]. cbn.
  destruct (Js.Qlt_bool _ _); [|done].
  rewrite IH. apply Permutation_swap.
Qed.

Lemma ranked_perm l : ranked l ≡ₚ l.
Proof.
  induction l as [|c l IH]; [done|]. cbn.
  by rewrite insert_ranked_perm, IH.
Qed.

Lemma distinct_domains_sublist n seen l :
  distinct_domains n seen l `sublist_of` l.
Proof.
  revert n seen. induction l as [|c l IH]; intros [|n] seen; cbn;
    try apply sublist_nil_l.
  case_bool_decide; [apply sublist_cons | apply sublist_skip]; apply IH.
Qed.

Lemma distinct_domains_length n seen l :
  length (distinct_domains n seen l) ≤ n.
Proof.
  revert n seen. induction l as [|c l IH]; intros [|n] seen; cbn; try lia.
  case_bool_decide; cbn.
  - apply IH.
  - specialize (IH n (scored_domain c :: seen)). lia.
Qed.

(** The domains picked in the first pass are pairwise different. *)
Lemma distinct_domains_NoDup n seen l :
  NoDup (scored_domain <$> distinct_domains n seen l)
  ∧ ∀ c, c ∈ distinct_domains n seen l → scored_domain c ∉ seen.
Proof.
  revert n seen. induction l as [|c l IH]; intros [|n] seen; cbn;
    try (split; [constructor | by intros ? ?%elem_of_nil]).
  case_bool_decide as Hseen; [apply IH|].
  destruct (IH n (scored_domain c :: seen)) as [Hnd Hnew]. split.
  - cbn. constructor; [|done].
    intros (x & Hd & Hx)%list_elem_of_fmap.
    apply Hnew in Hx. apply Hx. rewrite Hd. by left.
  - intros x [->|Hx]%elem_of_cons; [done|].
    apply Hnew in Hx. intros Hin. apply Hx. by right.
Qed.

Section fill_up.
Context (n : nat) (pool selected : list Scored).
Hypothesis Hsub : selected `sublist_of` pool.
Hypothesis Hnd : NoDup (scored_id <$> pool).

Lemma fill_up_elem c : c ∈ fill_up n pool selected → c ∈ pool.
Proof.
  unfold fill_up. intros [Hc|Hc]%elem_of_app.
  - by eapply elem_of_sublist.
  - pose proof (elem_of_sublist _ _ _ Hc (sublist_take _ _)) as Hrest.
    by apply list_elem_of_filter in Hrest as [_ ?].
Qed.

Lemma fill_up_length :
  length selected ≤ n → length (fill_up n pool selected) ≤ n.
Proof.
  unfold fill_up. intros Hlen. rewrite length_app, length_take. lia.
Qed.

Lemma fill_up_NoDup : NoDup (scored_id <$> fill_up n pool selected).
Proof.
  unfold fill_up. rewrite fmap_app. apply NoDup_app. split; [|split].
  - eapply sublist_NoDup; [exact Hnd|]. by apply fmap_sublist.
  - intros i Hi (c & -> & Hc)%list_elem_of_fmap.
    pose proof (elem_of_sublist _ _ _ Hc (sublist_take _ _)) as Hrest.
    by apply list_elem_of_filter in Hrest as [Hfresh _].
  - eapply sublist_NoDup; [exact Hnd|]. apply fmap_sublist.
    etrans; [apply sublist_take | apply sublist_filter].
Qed.
End fill_up.

Section include_foundational.
Context (is_foundational : Scored → bool) (pool selected : list Scored).
Hypothesis Hsub : ∀ c, c ∈ selected → c ∈ pool.
Hypothesis Hnd : NoDup (scored_id <$> pool).
Hypothesis Hsel : NoDup (scored_id <$> selected).

Lemma include_foundational_elem c :
  c ∈ include_foundational is_foundational pool selected → c ∈ pool.
Proof.
  clear Hnd Hsel. unfold include_foundational.
  destruct (existsb _ _); [by apply Hsub|].
  destruct (find _ pool) as [f|] eqn:Hf; [|by apply Hsub].
  destruct selected as [|x l] eqn:Hl; [by apply Hsub|]. rewrite <- Hl in *.
  intros [Hc| ->%list_elem_of_singleton]%elem_of_app.
  - apply Hsub. eapply elem_of_sublist; [exact Hc | apply sublist_take].
  - apply find_some in Hf as [Hin _]. by apply list_elem_of_In.
Qed.

Lemma include_foundational_length :
  length (include_foundational is_foundational pool selected)
  = length selected.
Proof.
  clear Hsub Hnd Hsel. unfold include_foundational.
  destruct (existsb _ _); [done|].
  destruct (find _ pool) as [f|]; [|done].
  destruct selected as [|x l] eqn:Hl; [done|]. rewrite <- Hl.
  rewrite length_app, length_take. subst. cbn. lia.
Qed.

Lemma include_foundational_NoDup :
  NoDup (scored_id <$> include_foundational is_foundational pool selected).
Proof.
  unfold include_foundational.
  destruct (existsb _ _) eqn:Hex; [done|].
  destruct (find _ pool) as [f|] eqn:Hf; [|done].
  destruct selected as [|x l] eqn:Hl; [done|]. rewrite <- Hl in *.
  apply find_some in Hf as [Hin Hfound]. apply list_elem_of_In in Hin.
  rewrite fmap_app. apply NoDup_app. split; [|split].
  - eapply sublist_NoDup; [exact Hsel|]. apply fmap_sublist, sublist_take.
  - intros i (c & -> & Hc)%list_elem_of_fmap Heq%list_elem_of_singleton.
    pose proof (elem_of_sublist _ _ _ Hc (sublist_take _ _)) as Hc'.
    assert (c = f) as ->.
    { eapply (NoDup_fmap_eq scored_id pool); eauto. }
    assert (existsb is_foundational selected = true) as Hyes.
    { apply existsb_exists. exists f. split; [|done].
      by apply list_elem_of_In. }
    congruence.
  - apply NoDup_singleton.
Qed.
End include_foundational.

Section diversity_filter.
Context (n : nat) (is_foundational : Scored → bool) (pool : list Scored).

Lemma diversity_filter_elem c :
  c ∈ diversity_filter n is_foundational pool → c ∈ pool.
Proof.
  unfold diversity_filter. intros Hc.
  rewrite (ranked_perm (include_foundational _ _ _)) in Hc.
  rewrite <- (ranked_perm pool).
  eapply include_foundational_elem; [|exact Hc].
  intros x Hx. eapply fill_up_elem; [|exact Hx].
  apply distinct_domains_sublist.
Qed.

Lemma diversity_filter_length :
  length (diversity_filter n is_foundational pool) ≤ n.
Proof.
  unfold diversity_filter.
  rewrite (ranked_perm (include_foundational _ _ _)).
  rewrite include_foundational_length.
  apply fill_up_length, distinct_domains_length.
Qed.

Lemma diversity_filter_NoDup :
  NoDup (scored_id <$> pool) →
  NoDup (scored_id <$> diversity_filter n is_foundational pool).
Proof.
  intros Hnd. unfold diversity_filter.
  rewrite (ranked_perm (include_foundational _ _ _)).
  assert (NoDup (scored_id <$> ranked pool)) as Hranked
    by by rewrite ranked_perm.
  apply include_foundational_NoDup; [|done|].
  - intros x Hx. eapply fill_up_elem; [|exact Hx].
    apply distinct_domains_sublist.
  - apply fill_up_NoDup; [apply distinct_domains_sublist | done].
Qed.

Lemma diversity_filter_nil_pool :
  pool = [] → diversity_filter n is_foundational pool = [].
Proof.
  intros Hnil.
  destruct (diversity_filter n is_foundational pool) as [|c l] eqn:Hd;
    [done|].
  assert (c ∈ pool) as Hc.
  { apply diversity_filter_elem. rewrite Hd. by left. }
  rewrite Hnil in Hc. by apply elem_of_nil in Hc.
Qed.
End diversity_filter.

End EngineFacts.

(** ** Scores *)

Module ScoreFacts.
Import Types Engine.

Lemma Qmax_cases (a b : Q) :
  (Qmax a b = a ∧ (b <= a)%Q) ∨ (Qmax a b = b ∧ (a <= b)%Q).
Proof.
  unfold Qmax, GenericMinMax.gmax.
  destruct (a ?= b)%Q eqn:Hcmp.
  - left. split; [done|]. apply Qeq_alt in Hcmp. rewrite Hcmp. apply Qle_refl.
  - right. split; [done|]. apply Qlt_alt in Hcmp. by apply Qlt_le_weak.
  - left. split; [done|]. apply Qgt_alt in Hcmp. by apply Qlt_le_weak.
Qed.

Lemma foldl_Qmax_ge (qs : list Q) (q : Q) :
  (q <= foldl Qmax q qs)%Q ∧ ∀ x, x ∈ qs → (x <= foldl Qmax q qs)%Q.
Proof.
  revert q. induction qs as [|y qs IH]; intros q; cbn.
  - split; [apply Qle_refl | by intros ? ?%elem_of_nil].
  - destruct (IH (Qmax q y)) as [Hq Hqs].
    destruct (Qmax_cases q y) as [[Hm Hle]|[Hm Hle]]; rewrite Hm in *.
    + split; [done|]. intros x [->|Hx]%elem_of_cons; [|by apply Hqs].
      by eapply Qle_trans.
    + split; [by eapply Qle_trans|].
      intros x [->|Hx]%elem_of_cons; [done | by apply Hqs].
Qed.

Lemma foldl_Qmax_elem (qs : list Q) (q : Q) :
  foldl Qmax q qs ∈ q :: qs.
Proof.
  revert q. induction qs as [|y qs IH]; intros q; cbn; [by left|].
  specialize (IH (Qmax q y)).
  apply elem_of_cons in IH as [Hhead|Htail].
  - rewrite Hhead.
    destruct (Qmax_cases q y) as [[-> _]|[-> _]]; [by left|].
    right. by left.
  - right. by right.
Qed.

Lemma maximum_ge (qs : list Q) x : x ∈ qs → (x <= maximum qs)%Q.
Proof.
  destruct qs as [|q qs]; [by intros ?%elem_of_nil|]. cbn.
  destruct (foldl_Qmax_ge qs q) as [Hq Hqs].
  intros [->|Hx]%elem_of_cons; [done | by apply Hqs].
Qed.

Lemma maximum_elem (qs : list Q) : qs ≠ [] → maximum qs ∈ qs.
Proof. destruct qs as [|q qs]; [done|]. intros _. apply foldl_Qmax_elem. Qed.


Lemma incoming_elem cat completed m p :
  p ∈ incoming cat completed m ↔
  ∃ e, e ∈ edges cat ∧ from_id e ∈ completed ∧ to_id e = m
       ∧ p = transition_probability e.
Proof.
  unfold incoming. rewrite list_elem_of_fmap. split.
  - intros (e & -> & He). apply list_elem_of_filter in He as [[? ?] ?].
    by exists e.
  - intros (e & He & Hfrom & Hto & ->). exists e. split; [done|].
    by apply list_elem_of_filter.
Qed.




End ScoreFacts.

(** ** The service's answer *)

Module RecommendFacts.
Import Types Engine EngineFacts ScoreFacts.

Lemma candidate_ids_NoDup pol cat age completed :
  NoDup (candidate_ids pol cat age completed).
Proof. unfold candidate_ids. apply NoDup_filter, NoDup_remove_dups. Qed.


(** In returning-user mode every candidate is the target of an edge that
    leaves a completed milestone. *)
Lemma candidate_ids_edge pol cat age completed i :
  completed ≠ [] →
  i ∈ candidate_ids pol cat age completed →
  ∃ e, e ∈ edges cat ∧ from_id e ∈ completed ∧ to_id e = i.
Proof.
  unfold candidate_ids. destruct completed as [|c rest]; [done|].
  intros _ [_ Hi]%list_elem_of_filter.
  apply elem_of_remove_dups, list_elem_of_fmap in Hi as (e & -> & He).
  apply list_elem_of_bind in He as (from & He & Hfrom).
  unfold edgesFrom in He. apply list_elem_of_filter in He as [<- He].
  by exists e.
Qed.

Lemma milestoneById_Some cat i m :
  milestoneById cat i = Some m → id m = i ∧ m ∈ milestones cat.
Proof.
  unfold milestoneById. intros [Hin Hid]%find_some.
  apply bool_decide_eq_true in Hid. by apply list_elem_of_In in Hin.
Qed.

Lemma omap_milestoneById_sublist cat (l : list string) :
  id <$> omap (milestoneById cat) l `sublist_of` l.
Proof.
  induction l as [|i l IH]; [done|]. cbn.
  destruct (milestoneById cat i) as [m|] eqn:Hm; cbn.
  - apply milestoneById_Some in Hm as [-> _]. by apply sublist_skip.
  - by apply sublist_cons.
Qed.

Lemma pool_ids pol cat age completed :
  scored_id <$> pool pol cat age completed
  = id <$> candidates pol cat age completed.
Proof. unfold pool. by rewrite <- list_fmap_compose. Qed.

Lemma pool_ids_sublist pol cat age completed :
  scored_id <$> pool pol cat age completed
  `sublist_of` candidate_ids pol cat age completed.
Proof. rewrite pool_ids. apply omap_milestoneById_sublist. Qed.

Lemma pool_NoDup pol cat age completed :
  NoDup (scored_id <$> pool pol cat age completed).
Proof.
  eapply sublist_NoDup; [apply candidate_ids_NoDup | apply pool_ids_sublist].
Qed.



Lemma recommend_ids pol cat age completed recs :
  recommend pol cat age completed = Accepted recs →
  ∃ selected,
    ids recs = scored_id <$> selected
    ∧ selected
      = diversity_filter (N pol)
          (λ c, bool_decide (categorize pol age c = foundational))
          (pool pol cat age completed).
Proof.
  unfold recommend. destruct (_ || _); [done|]. intros [= <-].
  eexists. split; [|done]. unfold ids. by rewrite <- list_fmap_compose.
Qed.


Lemma recommend_NoDup pol cat age completed recs :
  recommend pol cat age completed = Accepted recs → NoDup (ids recs).
Proof.
  intros (selected & -> & ->)%recommend_ids.
  apply diversity_filter_NoDup, pool_NoDup.
Qed.

Lemma recommend_length pol cat age completed recs :
  recommend pol cat age completed = Accepted recs → length recs ≤ N pol.
Proof.
  intros Hrecs. pose proof Hrecs as (selected & Hids & ->)%recommend_ids.
  apply (f_equal length) in Hids. unfold ids in Hids.
  rewrite !length_fmap in Hids. rewrite Hids.
  apply diversity_filter_length.
Qed.

Lemma recommend_in_range pol cat age completed :
  (0 <= age)%Q → (age <= 48)%Q →
  ∃ recs, recommend pol cat age completed = Accepted recs.
Proof.
  intros H0 H48. unfold recommend, Js.Qlt_bool.
  apply Qle_bool_iff in H0, H48. rewrite H0, H48. cbn. by eexists.
Qed.

Lemma recommend_out_of_range pol cat age completed :
  (age < 0)%Q ∨ (48 < age)%Q →
  ∃ detail, recommend pol cat age completed = Rejected detail.
Proof.
  intros Hout. unfold recommend, Js.Qlt_bool.
  destruct (Qle_bool 0 age) eqn:H0; cbn; [|by eexists].
  destruct (Qle_bool age 48) eqn:H48; cbn; [|by eexists].
  apply Qle_bool_iff in H0, H48. destruct Hout; lra.
Qed.

Lemma recommend_empty_pool pol cat age completed recs :
  pool pol cat age completed = [] →
  recommend pol cat age completed = Accepted recs → recs = [].
Proof.
  intros Hpool. unfold recommend. destruct (_ || _); [done|].
  intros [= <-]. by rewrite diversity_filter_nil_pool.
Qed.

End RecommendFacts.

(** ** The dashboard's state after a fetch and after a completion *)

Module DashboardFacts.
Import Js Types Dashboard RefillFacts.

Lemma fetchRecommendations_recommendations slotId o s :
  recommendations (fetchRecommendations slotId o s)
  = match settle o, slotId with
    | inr newRecommendations, Some slot =>
        if truthy slot
        then refillSlot slot newRecommendations (recommendations s)
        else newRecommendations
    | inr newRecommendations, None => newRecommendations
    | inl _, _ => if truthy_opt slotId then recommendations s else []
    end.
Proof.
  unfold fetchRecommendations, fetchSettle, fetchStart, finallyBlock.
  destruct (settle o) as [msg|new]; destruct slotId as [slot|]; cbn;
    try destruct (truthy slot); reflexivity.
Qed.


Lemma fetchRecommendations_error slotId o s :
  error (fetchRecommendations slotId o s)
  = match settle o with
    | inl errorMessage => Some errorMessage
    | inr _ => None
    end.
Proof.
  unfold fetchRecommendations, fetchSettle, fetchStart, finallyBlock.
  destruct (settle o) as [msg|new]; destruct slotId as [slot|]; cbn;
    try destruct (truthy slot); reflexivity.
Qed.

Lemma fetchRecommendations_loading slotId o s :
  loading (fetchRecommendations slotId o s)
  = if truthy_opt slotId then loading s else false.
Proof.
  unfold fetchRecommendations, fetchSettle, fetchStart, finallyBlock.
  destruct (settle o) as [msg|new]; destruct slotId as [slot|]; cbn;
    try destruct (truthy slot); reflexivity.
Qed.

Lemma fetchRecommendations_refillingSlots slotId o s :
  refillingSlots (fetchRecommendations slotId o s)
  = match settle o, slotId with
    | inr _, Some slot =>
        if truthy slot then refillingSlots s ∖ {[slot]}
        else refillingSlots s
    | _, _ => refillingSlots s
    end.
Proof.
  unfold fetchRecommendations, fetchSettle, fetchStart, finallyBlock.
  destruct (settle o) as [msg|new]; destruct slotId as [slot|]; cbn;
    try destruct (truthy slot); reflexivity.
Qed.

Lemma handleMilestoneComplete_recommendations r milestone ls s :
  recommendations (completed_state (handleMilestoneComplete r milestone ls s))
  = filter (λ rec, milestone_id rec ≠ milestone_id milestone)
      (recommendations s).
Proof. reflexivity. Qed.


Lemma handleMilestoneComplete_timers r milestone ls s :
  timers (handleMilestoneComplete r milestone ls s)
  = [ (100, AddToJourney milestone);
      (600, Refill r (milestone_id milestone)
              (completedMilestones
                 (completed_state (handleMilestoneComplete r milestone ls s)))) ].
Proof. reflexivity. Qed.

(** The only request a completion leads to is the refill's, and it lists
    the milestone among the completed ones. *)
Lemma handleMilestoneComplete_requests r milestone ls s delay task ls' s' req :
  (delay, task) ∈ timers (handleMilestoneComplete r milestone ls s) →
  (fire task ls' s').2 = Some req →
  delay = 600
  ∧ completed_milestone_ids req
    = completedMilestones
        (completed_state (handleMilestoneComplete r milestone ls s))
  ∧ milestone_id milestone ∈ completed_milestone_ids req.
Proof.
  rewrite handleMilestoneComplete_timers.
  intros [Ht|Ht%list_elem_of_singleton]%elem_of_cons;
    injection Ht as -> ->; cbn; [done|].
  intros [= <-]. cbn. split; [done|]. split; [done|].
  apply elem_of_app. right. by left.
Qed.


Lemma handleMilestoneComplete_Bounded r milestone ls s :
  Bounded (recommendations s) →
  Bounded (recommendations
             (completed_state (handleMilestoneComplete r milestone ls s))).
Proof.
  rewrite handleMilestoneComplete_recommendations.
  apply filter_slot_Bounded.
Qed.

(** A refill keeps the list bounded and free of repeats, whatever comes
    back. *)
Lemma refill_Bounded slot o s :
  truthy slot = true →
  Bounded (recommendations s) →
  Bounded (recommendations (fetchRecommendations (Some slot) o s)).
Proof.
  intros Hslot [Hlen Hnd]. rewrite fetchRecommendations_recommendations.
  cbn. rewrite Hslot. destruct (settle o) as [msg|new]; [done|].
  split; [by apply refillSlot_length | by apply refillSlot_NoDup].
Qed.

End DashboardFacts.

(** ** The dashboard served by the engine *)

Module SystemFacts.
Import Js Types Dashboard RefillFacts DashboardFacts RecommendFacts.

Lemma serve_settle pol cat req newRecommendations :
  settle (Service.serve pol cat req) = inr newRecommendations →
  ∃ age,
    baby_age_months req = Finite age
    ∧ Engine.recommend pol cat age (completed_milestone_ids req)
      = Engine.Accepted newRecommendations.
Proof.
  unfold Service.serve.
  destruct (baby_age_months req) as [| | |age]; try done.
  destruct (Engine.recommend _ _ _ _) as [detail|recs] eqn:Hrec; [done|].
  cbn. intros [= <-]. by exists age.
Qed.


Lemma serve_Bounded pol cat req newRecommendations :
  Engine.N pol = 3 →
  settle (Service.serve pol cat req) = inr newRecommendations →
  Bounded newRecommendations.
Proof.
  intros HN (age & _ & Hrec)%serve_settle. split.
  - rewrite <- HN. by eapply recommend_length.
  - by eapply recommend_NoDup.
Qed.



Lemma full_fetch_Bounded pol cat s req :
  Engine.N pol = 3 →
  Bounded (recommendations
             (fetchRecommendations None (Service.serve pol cat req) s)).
Proof.
  intros HN. rewrite fetchRecommendations_recommendations.
  destruct (settle _) as [msg|new] eqn:Hsettle; cbn.
  - split; [cbn; lia | constructor].
  - by eapply serve_Bounded.
Qed.

End SystemFacts.

(* ===================================================================== *)
(** * The claims                                                          *)
(* ===================================================================== *)

Module Claims.
Import Js Types Dashboard.
Import RefillFacts DashboardFacts RecommendFacts ScoreFacts SystemFacts.

(** ** Completed milestones and the displayed list *)




(** C2. The displayed list holds at most three recommendations and no
    milestone twice. With the default size N = 3: (1) every answer of the
    service is such a list, (2) so is the list after a full fetch, (3) a
    completion and (4) a refill keep the list so, whatever the response;
    (5) the replacement a refill picks is a milestone not displayed yet,
    and the list it leaves is cut to three. *)
Theorem displayed_list_bounded
    (pol : Engine.Policy) (cat : Engine.Catalog) (s : State) :
  Engine.N pol = 3 →
  (∀ age completed recs,
     Engine.recommend pol cat age completed = Engine.Accepted recs →
     length recs ≤ 3 ∧ NoDup (ids recs))
  ∧ (∀ req,
       Bounded (recommendations
                  (fetchRecommendations None (Service.serve pol cat req) s)))
  ∧ (∀ r milestone ls,
       Bounded (recommendations s) →
       Bounded (recommendations
                  (completed_state (handleMilestoneComplete r milestone ls s))))
  ∧ (∀ slot o,
       truthy slot = true →
       Bounded (recommendations s) →
       Bounded (recommendations (fetchRecommendations (Some slot) o s)))
  ∧ (∀ slot newRecommendations rec,
       availableRec newRecommendations (recommendations s) = Some rec →
       (milestone_id rec ∉ ids (recommendations s))
       ∧ length (refillSlot slot newRecommendations (recommendations s)) ≤ 3).
Proof.
  intros HN. split; [|split; [|split; [|split]]].
  - intros age completed recs Hrecs. split.
    + rewrite <- HN. by eapply recommend_length.
    + by eapply recommend_NoDup.
  - intros req. by apply full_fetch_Bounded.
  - intros r milestone ls. apply handleMilestoneComplete_Bounded.
  - intros slot o. apply refill_Bounded.
  - intros slot new rec Hav.
    split; [by destruct (availableRec_Some _ _ _ Hav)|].
    rewrite (refillSlot_Some _ _ _ _ Hav), length_take. lia.
Qed.

Lemma displayed_list_bounded_witness :
  let st := Sample.showing [Sample.recB; Sample.recC] in
  Bounded (recommendations
             (fetchRecommendations (Some "A")
                (Ok (Some [Sample.recB; Sample.recE])) st)).
Proof.
  intros st.
  apply (displayed_list_bounded Sample.policy Sample.catalog st);
    [reflexivity | reflexivity |].
  split; [cbn; lia|]. cbn.
  repeat constructor; rewrite ?elem_of_cons, ?elem_of_nil; intuition discriminate.
Defined.

(** ** Validation of the age *)

Lemma in_range_test (n : number) :
  isNaN n || lt n zero || gt n forty_eight = false ↔ in_range n.
Proof.
  unfold in_range. destruct n as [| | |q]; cbn.
  1-3: split; [done | by intros (a & [=] & _)].
  unfold Js.Qlt_bool. split.
  - intros Htest. exists q. split; [done|].
    destruct (Qle_bool 0 q) eqn:H0; [|done].
    destruct (Qle_bool q 48) eqn:H48; [|done].
    by apply Qle_bool_iff in H0, H48.
  - intros (a & [= <-] & H0 & H48).
    apply Qle_bool_iff in H0, H48. by rewrite H0, H48.
Qed.

Lemma out_of_range_test (n : number) :
  ¬ in_range n → isNaN n || lt n zero || gt n forty_eight = true.
Proof.
  intros Hout. destruct (_ || _) eqn:Htest; [done|].
  by apply in_range_test in Htest.
Qed.

Lemma in_range_header_test (n : number) :
  negb (isNaN n) && ge n zero && le n forty_eight = true ↔ in_range n.
Proof.
  unfold in_range. destruct n as [| | |q]; cbn.
  1-3: split; [done | by intros (a & [=] & _)].
  split.
  - intros [H0 H48]%andb_true_iff. exists q. split; [done|].
    by apply Qle_bool_iff in H0, H48.
  - intros (a & [= <-] & H0 & H48).
    apply Qle_bool_iff in H0, H48. by rewrite H0, H48.
Qed.

(** C3, as the code has it. An age input that is empty, not a number, or
    outside the closed interval from 0 to 48 is rejected, and an age
    inside it is accepted as it is, never moved into range. On the landing
    page (1) a rejected input blocks the submission with the validation
    message: nothing is stored, nothing is sent, no navigation; (2) an
    accepted input never gets that message, and when the intake succeeds
    the age stored for the dashboard is the number as typed. On the
    dashboard (3) a stored age that is missing, empty or rejected
    redirects to the landing page and the page mounts exactly as it does
    with nothing stored: the stored age is not taken over; (4) an
    accepted stored age becomes the age of the page, without redirect.
    (5) The age field of the header hands on an accepted age as it is
    and nothing else. *)
Theorem age_validation `{Runtime} (apiUrl : string)
    (o : Landing.IntakeOutcome) (ls : Storage.t) (st : Landing.State) :
  let age := parseFloat (Landing.ageMonths st) in
  let message := "Please enter a valid age between 0 and 48 months." in
  (truthy (trim (Landing.ageMonths st)) = false ∨ ¬ in_range age →
   Landing.handleSubmit apiUrl o ls st
   = {| Landing.submitted_state :=
          Landing.setFollowUpQuestion (Some message) st;
        Landing.submitted_storage := ls;
        Landing.pushed := None;
        Landing.intake_called := false |})
  ∧ (truthy (trim (Landing.ageMonths st)) = true → in_range age →
     Landing.followUpQuestion
       (Landing.submitted_state (Landing.handleSubmit apiUrl o ls st))
     ≠ Some message
     ∧ (Landing.pushed (Landing.handleSubmit apiUrl o ls st)
        = Some DashboardRoute →
        Storage.babyAge
          (Landing.submitted_storage (Landing.handleSubmit apiUrl o ls st))
        = Some (toString age)))
  ∧ ((match Storage.babyAge ls with
      | None => True
      | Some saved => truthy saved = false ∨ ¬ in_range (parseFloat saved)
      end) →
     pushed (mount ls) = Some LandingRoute
     ∧ babyAge (mounted_state (mount ls)) = babyAge initial
     ∧ mount ls = mount Storage.empty)
  ∧ (∀ saved,
       Storage.babyAge ls = Some saved → truthy saved = true →
       in_range (parseFloat saved) →
       pushed (mount ls) = None
       ∧ babyAge (mounted_state (mount ls)) = parseFloat saved)
  ∧ (∀ inputValue,
       match Header.onChange inputValue with
       | Some newAge => newAge = parseFloat inputValue ∧ in_range newAge
       | None =>
           inputValue = EmptyString ∨ inputValue = "."
           ∨ ¬ in_range (parseFloat inputValue)
       end).
Proof.
  intros age message. split; [|split; [|split; [|split]]].
  - intros Hbad. unfold Landing.handleSubmit. fold age.
    assert (negb (truthy (trim (Landing.ageMonths st))) || isNaN age
            || lt age zero || gt age forty_eight = true) as ->; [|done].
    destruct Hbad as [->|Hout]; [done|].
    apply out_of_range_test in Hout.
    destruct (negb _); [done|]. exact Hout.
  - intros Hfilled Hin. unfold Landing.handleSubmit. fold age.
    apply in_range_test in Hin.
    assert (negb (truthy (trim (Landing.ageMonths st))) || isNaN age
            || lt age zero || gt age forty_eight = false) as ->.
    { rewrite Hfilled. exact Hin. }
    destruct (negb (truthy (trim (Landing.story st)))); [by split|].
    destruct (Landing.intakeData o) as [msg|data]; cbn; [by split|].
    by split.
  - intros Hbad.
    assert (loadEffect ls initial = (initial, Some LandingRoute)) as Hload.
    { unfold loadEffect. destruct (Storage.babyAge ls) as [saved|]; [|done].
      destruct Hbad as [->|Hout]; [done|].
      destruct (negb (truthy saved)); [done|].
      by rewrite (out_of_range_test _ Hout). }
    unfold mount. rewrite Hload. by cbn.
  - intros saved Hsaved Hfilled Hin. apply in_range_test in Hin.
    unfold mount, loadEffect. rewrite Hsaved, Hfilled, Hin. cbn.
    unfold loadJourney, loadCompleted.
    destruct (Storage.completedMilestones ls) as [[?|raw]|];
      destruct (Storage.journeyMilestones ls) as [[?|raw']|]; cbn;
      try destruct (truthy raw); try destruct (truthy raw'); by cbn.
  - intros inputValue. unfold Header.onChange.
    destruct (String.eqb inputValue EmptyString) eqn:Hempty.
    { left. by apply String.eqb_eq. }
    destruct (String.eqb inputValue ".") eqn:Hdot.
    { right. left. by apply String.eqb_eq. }
    cbn [orb]. cbv zeta.
    destruct (negb (isNaN (parseFloat inputValue))
              && ge (parseFloat inputValue) zero
              && le (parseFloat inputValue) forty_eight) eqn:Htest.
    + split; [done|]. by apply in_range_header_test.
    + right. right. intros Hin%in_range_header_test. congruence.
Qed.

Lemma age_validation_witness :
  Landing.pushed
    (Landing.handleSubmit "http://localhost:8000"
       (Landing.IntakeOk Landing.unavailable) Storage.empty
       (Sample.typed "50" "She can sit without support."))
  = None
  ∧ Storage.babyAge
      (Landing.submitted_storage
         (Landing.handleSubmit "http://localhost:8000"
            (Landing.IntakeOk Landing.unavailable) Storage.empty
            (Sample.typed "6.5" "She can sit without support.")))
    = Some "6.5"
  ∧ pushed (mount (Sample.stored_age "-1")) = Some LandingRoute
  ∧ babyAge (mounted_state (mount (Sample.stored_age "6.5")))
    = Finite (13 # 2).
Proof.
  split; [|split; [|split]].
  - pose proof (age_validation "http://localhost:8000"
                  (Landing.IntakeOk Landing.unavailable) Storage.empty
                  (Sample.typed "50" "She can sit without support."))
      as Hthm.
    cbv zeta in Hthm. destruct Hthm as (Hblocked & _).
    rewrite Hblocked; [reflexivity|].
    right. intros (a & Heq & H0 & H48).
    vm_compute in Heq. injection Heq as <-. lra.
  - pose proof (age_validation "http://localhost:8000"
                  (Landing.IntakeOk Landing.unavailable) Storage.empty
                  (Sample.typed "6.5" "She can sit without support."))
      as Hthm.
    cbv zeta in Hthm. destruct Hthm as (_ & Haccepted & _).
    destruct Haccepted as [_ Hstored].
    + reflexivity.
    + exists (13 # 2)%Q. split; [reflexivity|]. split; lra.
    + rewrite Hstored; reflexivity.
  - pose proof (age_validation "http://localhost:8000"
                  (Landing.IntakeOk Landing.unavailable)
                  (Sample.stored_age "-1") Landing.initial) as Hthm.
    cbv zeta in Hthm. destruct Hthm as (_ & _ & Hredirect & _ & _).
    apply Hredirect. right. intros (a & Heq & H0 & H48).
    vm_compute in Heq. injection Heq as <-. lra.
  - pose proof (age_validation "http://localhost:8000"
                  (Landing.IntakeOk Landing.unavailable)
                  (Sample.stored_age "6.5") Landing.initial) as Hthm.
    cbv zeta in Hthm. destruct Hthm as (_ & _ & _ & Htaken & _).
    apply (Htaken "6.5"); [reflexivity | reflexivity |].
    exists (13 # 2)%Q. split; [reflexivity|]. split; lra.
Defined.

(** Against C3 as worded: with the age 50 stored, the dashboard does
    redirect to the landing page, yet the fetch effect of the same mount
    sends a request to [recommend], with the default age 3 and no
    completed milestone. *)
Lemma mount_rejected_age_still_requests :
  pushed (mount (Sample.stored_age "50")) = Some LandingRoute
  ∧ requests (mount (Sample.stored_age "50"))
    = [ {| baby_age_months := three; completed_milestone_ids := [] |} ]
  ∧ requests (mount (Sample.stored_age "50")) ≠ [].
Proof. split; [|split]; by vm_compute. Qed.

(** ** Discovery score *)

(** C4. With a completed milestone at hand, the discovery score of [m]
    is the maximum of the transition probabilities of the edges that
    lead from a completed milestone into [m]: (1) it is at least each of
    them, and (2) when there is such an edge, as there is for every
    candidate, it is the probability of one of them, neither a sum nor
    a mean; (3) with edges of 0.9 and 0.2, and no others, it is 0.9;
    (4) with nothing completed it is 0. *)
Theorem discovery_score_is_maximum
    (pol : Engine.Policy) (cat : Engine.Catalog) (age : Q)
    (completed : list string) (m : string) :
  completed ≠ [] →
  let incoming_edge e :=
    e ∈ Engine.edges cat ∧ Engine.from_id e ∈ completed
    ∧ Engine.to_id e = m in
  let score := Engine.discovery_score cat completed m in
  (∀ e, incoming_edge e → (Engine.transition_probability e <= score)%Q)
  ∧ ((m ∈ Engine.candidate_ids pol cat age completed
      ∨ ∃ e, incoming_edge e) →
     ∃ e, incoming_edge e ∧ score = Engine.transition_probability e)
  ∧ ((∃ e, incoming_edge e
           ∧ (Engine.transition_probability e == 9 # 10)%Q) →
     (∀ e, incoming_edge e →
           (Engine.transition_probability e == 9 # 10)%Q
           ∨ (Engine.transition_probability e == 2 # 10)%Q) →
     (score == 9 # 10)%Q)
  ∧ Engine.discovery_score cat [] m = 0%Q.
Proof.
  intros Hsome incoming_edge score.
  assert (∀ e, incoming_edge e →
               (Engine.transition_probability e <= score)%Q) as Hupper.
  { intros e (He & Hfrom & Hto). subst score. unfold Engine.discovery_score.
    destruct completed as [|c rest]; [done|].
    apply maximum_ge, incoming_elem. by exists e. }
  assert ((∃ e, incoming_edge e) →
          ∃ e, incoming_edge e
               ∧ score = Engine.transition_probability e) as Hattained.
  { intros (e & He & Hfrom & Hto). subst score.
    unfold Engine.discovery_score.
    destruct completed as [|c rest]; [done|].
    assert (Engine.incoming cat (c :: rest) m ≠ []) as Hne.
    { intros Hnil.
      assert (Engine.transition_probability e
              ∈ Engine.incoming cat (c :: rest) m) as Hin
        by (apply incoming_elem; by exists e).
      rewrite Hnil in Hin. by apply elem_of_nil in Hin. }
    apply maximum_elem, incoming_elem in Hne as (e' & ? & ? & ? & ?).
    by exists e'. }
  split; [exact Hupper|]. split; [|split; [|done]].
  - intros [Hcand|Hedge]; [|by apply Hattained].
    apply Hattained.
    destruct (candidate_ids_edge _ _ _ _ _ Hsome Hcand) as (e & ? & ? & ?).
    by exists e.
  - intros (e & He & Hp) Hall.
    destruct Hattained as (e' & He' & Hscore); [by exists e|].
    apply Hupper in He. rewrite Hp in He.
    destruct (Hall e' He') as [Hp'|Hp']; rewrite Hscore, Hp' in *;
      [reflexivity | lra].
Qed.

Lemma discovery_score_is_maximum_witness :
  (Engine.discovery_score Sample.catalog ["ddigmd055"; "ddicmm029"]
     "ddigmd063"
   == 9 # 10)%Q.
Proof.
  pose proof (discovery_score_is_maximum Sample.policy Sample.catalog 6
                ["ddigmd055"; "ddicmm029"] "ddigmd063") as Hthm.
  cbv zeta in Hthm. destruct Hthm as (_ & _ & Hexample & _); [done|].
  apply Hexample.
  - exists (Sample.edge "ddigmd055" "ddigmd063" (9 # 10)%Q).
    split; [|reflexivity]. split; [|split; [|reflexivity]].
    + cbn. by left.
    + cbn. by left.
  - intros e (He & Hfrom & Hto). cbn in He.
    repeat (apply elem_of_cons in He as [->|He]);
      try (by apply elem_of_nil in He); cbn in Hto; try discriminate Hto.
    + by left.
    + by right.
Defined.

(** ** Refills *)

(** C5, as the code has it. The page compares the response of a refill
    with the displayed list only; the completed list plays no part.
    (1) The refill finds no replacement exactly when every returned
    milestone is already displayed. (2) Such a refill is not an error: no
    error is set, the loading flag is left alone, the slot leaves the
    refilling set and the list goes on without the slot's milestone, no
    longer than before. *)
Theorem exhausted_refill_is_no_error
    (slot : string) (data : option (list Recommendation)) (s : State) :
  truthy slot = true →
  let displayed :=
    ∀ rec, rec ∈ default [] data →
           milestone_id rec ∈ ids (recommendations s) in
  let s' := fetchRecommendations (Some slot) (Ok data) s in
  (availableRec (default [] data) (recommendations s) = None ↔ displayed)
  ∧ (displayed →
     error s' = None
     ∧ recommendations s'
       = filter (λ r, milestone_id r ≠ slot) (recommendations s)
     ∧ (slot ∉ ids (recommendations s'))
     ∧ length (recommendations s') ≤ length (recommendations s)
     ∧ (slot ∉ refillingSlots s')
     ∧ loading s' = loading s).
Proof.
  intros Hslot displayed s'. split; [apply availableRec_None|].
  intros Hnothing.
  assert (settle (Ok data) = inr (default [] data)) as Hsettle
    by by destruct data.
  assert (recommendations s'
          = filter (λ r, milestone_id r ≠ slot) (recommendations s)) as Hrecs.
  { subst s'. rewrite fetchRecommendations_recommendations, Hsettle, Hslot.
    by apply refillSlot_None, availableRec_None. }
  split; [|split; [exact Hrecs|split; [|split; [|split]]]].
  - subst s'. by rewrite fetchRecommendations_error, Hsettle.
  - rewrite Hrecs. apply filter_slot_ids.
  - rewrite Hrecs. apply length_filter.
  - subst s'. rewrite fetchRecommendations_refillingSlots, Hsettle, Hslot.
    apply not_elem_of_difference. right. by apply elem_of_singleton.
  - subst s'. rewrite fetchRecommendations_loading. cbn. by rewrite Hslot.
Qed.

Lemma exhausted_refill_is_no_error_witness :
  availableRec [Sample.recB; Sample.recC] [Sample.recB; Sample.recC] = None
  ∧ recommendations
      (fetchRecommendations (Some "A")
         (Ok (Some [Sample.recB; Sample.recC]))
         (Sample.showing [Sample.recB; Sample.recC]))
    = [Sample.recB; Sample.recC].
Proof.
  pose proof (exhausted_refill_is_no_error "A"
                (Some [Sample.recB; Sample.recC])
                (Sample.showing [Sample.recB; Sample.recC])) as Hthm.
  cbv zeta in Hthm. destruct Hthm as [Hnone Hkept]; [reflexivity|].
  assert (∀ rec, rec ∈ [Sample.recB; Sample.recC] →
                 milestone_id rec ∈ ids [Sample.recB; Sample.recC])
    as Hdisplayed.
  { intros rec Hrec.
    apply elem_of_cons in Hrec as [->|Hrec]; [by left|].
    apply list_elem_of_singleton in Hrec as ->. right. by left. }
  split; [by apply Hnone|].
  destruct (Hkept Hdisplayed) as (_ & Hrecs & _).
  rewrite Hrecs. reflexivity.
Defined.

(** A returned milestone that is excluded but not displayed is not
    nothing new to the page. The page shows A, B and C and A is
    completed; the refill of A's slot is answered by B, which is
    displayed, and A, which is completed. Every returned milestone is
    displayed or excluded, and yet the page takes A as the replacement
    and shows it again, last. *)
Lemma refill_takes_excluded_milestone :
  let shown := Sample.showing [Sample.recA; Sample.recB; Sample.recC] in
  let s :=
    completed_state
      (handleMilestoneComplete (render_of shown) Sample.recA
         Storage.empty shown) in
  let response := [Sample.recB; Sample.recA] in
  let s' := fetchRecommendations (Some "A") (Ok (Some response)) s in
  recommendations s = [Sample.recB; Sample.recC]
  ∧ completedMilestones s = ["A"]
  ∧ (∀ rec, rec ∈ response →
       milestone_id rec ∈ ids (recommendations s)
       ∨ milestone_id rec ∈ completedMilestones s)
  ∧ availableRec response (recommendations s) = Some Sample.recA
  ∧ recommendations s' = [Sample.recB; Sample.recC; Sample.recA]
  ∧ recommendations s'
    ≠ filter (λ r, milestone_id r ≠ "A") (recommendations s)
  ∧ ¬ length (recommendations s') ≤ length (recommendations s)
  ∧ error s' = None.
Proof.
  cbv zeta.
  assert (recommendations
            (completed_state
               (handleMilestoneComplete
                  (render_of
                     (Sample.showing
                        [Sample.recA; Sample.recB; Sample.recC]))
                  Sample.recA Storage.empty
                  (Sample.showing [Sample.recA; Sample.recB; Sample.recC])))
          = [Sample.recB; Sample.recC]) as Hshown by by vm_compute.
  assert (recommendations
            (fetchRecommendations (Some "A")
               (Ok (Some [Sample.recB; Sample.recA]))
               (completed_state
                  (handleMilestoneComplete
                     (render_of
                        (Sample.showing
                           [Sample.recA; Sample.recB; Sample.recC]))
                     Sample.recA Storage.empty
                     (Sample.showing
                        [Sample.recA; Sample.recB; Sample.recC]))))
          = [Sample.recB; Sample.recC; Sample.recA]) as Hafter
    by by vm_compute.
  rewrite Hshown, Hafter.
  split; [reflexivity|]. split; [reflexivity|]. split; [|split; [|split]].
  - intros rec Hrec.
    apply elem_of_cons in Hrec as [->|Hrec]; [left; by left|].
    apply list_elem_of_singleton in Hrec as ->. right. by left.
  - by vm_compute.
  - reflexivity.
  - split; [by vm_compute|]. split; [cbn; lia | by vm_compute].
Qed.

(** C7. The refill is a function of its inputs: two invocations with the
    same slot, the same displayed list and the same returned list pick
    the same replacement and leave the same list, and from the same
    state and response the whole call leaves the same state. The
    replacement itself is fixed by the response: it is the first
    returned recommendation whose milestone is not displayed. *)
Theorem refill_is_deterministic
    (slot slot' : string) (newRecommendations newRecommendations' : list Recommendation)
    (prev prev' : list Recommendation) (o o' : FetchOutcome) (s s' : State) :
  slot = slot' → newRecommendations = newRecommendations' → prev = prev' →
  (availableRec newRecommendations prev
   = availableRec newRecommendations' prev'
   ∧ refillSlot slot newRecommendations prev
     = refillSlot slot' newRecommendations' prev')
  ∧ (o = o' → s = s' →
     fetchRecommendations (Some slot) o s
     = fetchRecommendations (Some slot') o' s')
  ∧ (∀ rec,
       availableRec newRecommendations prev = Some rec →
       ∃ before after,
         newRecommendations = before ++ rec :: after
         ∧ (milestone_id rec ∉ ids prev)
         ∧ ∀ r, r ∈ before → milestone_id r ∈ ids prev).
Proof.
  intros <- <- <-. split; [done|]. split; [by intros <- <-|].
  intros rec Hav.
  destruct (availableRec_first _ _ _ Hav) as (before & after & Hnew & Hbefore).
  exists before, after. split; [done|]. split; [|done].
  by destruct (availableRec_Some _ _ _ Hav).
Qed.

Lemma refill_is_deterministic_witness :
  refillSlot "A" [Sample.recB; Sample.recD] [Sample.recB; Sample.recC]
  = refillSlot "A" [Sample.recB; Sample.recD] [Sample.recB; Sample.recC].
Proof.
  apply (refill_is_deterministic "A" "A"
           [Sample.recB; Sample.recD] [Sample.recB; Sample.recD]
           [Sample.recB; Sample.recC] [Sample.recB; Sample.recC]
           (Ok None) (Ok None) initial initial);
    reflexivity.
Defined.

(** C9, as the code has it. When a refill finds a replacement, the list
    it leaves is the first three of: the displayed recommendations other
    than the slot's, unchanged and in their order, followed by the
    replacement. So with fewer than three others the replacement comes
    last, after all of them; with three or more it is the cut that
    wins, and the replacement is dropped. *)
Theorem refill_keeps_others_in_order
    (slot : string) (newRecommendations prev : list Recommendation)
    (rec : Recommendation) :
  availableRec newRecommendations prev = Some rec →
  let others := filter (λ r, milestone_id r ≠ slot) prev in
  refillSlot slot newRecommendations prev = take 3 (others ++ [rec])
  ∧ (∀ r, r ∈ prev → milestone_id r ≠ slot → r ∈ others)
  ∧ others `sublist_of` prev
  ∧ (length others < 3 →
     refillSlot slot newRecommendations prev = others ++ [rec])
  ∧ (3 ≤ length others →
     refillSlot slot newRecommendations prev = take 3 others).
Proof.
  intros Hav others. rewrite (refillSlot_Some _ _ _ _ Hav). fold others.
  split; [done|]. split; [|split; [apply filter_slot_sublist|split]].
  - intros r Hr Hne. by apply list_elem_of_filter.
  - intros Hlen. apply take_ge. rewrite length_app. cbn. lia.
  - intros Hlen. by apply take_app_le.
Qed.

Lemma refill_keeps_others_in_order_witness :
  refillSlot "A" [Sample.recB; Sample.recD] [Sample.recB; Sample.recC]
  = [Sample.recB; Sample.recC; Sample.recD].
Proof.
  pose proof (refill_keeps_others_in_order "A" [Sample.recB; Sample.recD]
                [Sample.recB; Sample.recC] Sample.recD) as Hthm.
  cbv zeta in Hthm.
  destruct Hthm as (_ & _ & _ & Hlast & _); [by vm_compute|].
  rewrite Hlast; [reflexivity|]. vm_compute. lia.
Defined.

(** Against C9 as worded: slot A was vacated, the list shows B, C and D,
    and the response offers E, which is not displayed. E is the
    replacement found, yet the list stays B, C, D: E is not appended. *)
Lemma refill_of_full_list_drops_replacement :
  let prev := [Sample.recB; Sample.recC; Sample.recD] in
  availableRec [Sample.recE] prev = Some Sample.recE
  ∧ refillSlot "A" [Sample.recE] prev = prev
  ∧ refillSlot "A" [Sample.recE] prev
    ≠ filter (λ r, milestone_id r ≠ "A") prev ++ [Sample.recE].
Proof.
  intros prev. split; [by vm_compute|]. split; [by vm_compute|].
  intros Heq. apply (f_equal length) in Heq. by vm_compute in Heq.
Qed.

(** C10. When the fetch of a refill fails, the displayed list is what it
    was before the attempt, and the failure is recorded as the error;
    when a full fetch fails, the displayed list is emptied. Neither the
    start of a refill nor the handling of its failure touches the list,
    so this holds whatever happens between the two. *)
Theorem failed_refill_keeps_list
    (slot : string) (o : FetchOutcome) (errorMessage : string) (s : State) :
  truthy slot = true →
  settle o = inl errorMessage →
  recommendations (fetchRecommendations (Some slot) o s) = recommendations s
  ∧ error (fetchRecommendations (Some slot) o s) = Some errorMessage
  ∧ recommendations (fetchStart (Some slot) s) = recommendations s
  ∧ recommendations (fetchSettle (Some slot) o s) = recommendations s
  ∧ recommendations (fetchRecommendations None o s) = []
  ∧ error (fetchRecommendations None o s) = Some errorMessage.
Proof.
  intros Hslot Hfailed.
  rewrite !fetchRecommendations_recommendations, !fetchRecommendations_error.
  rewrite Hfailed. cbn. rewrite Hslot. repeat split.
  unfold fetchSettle, finallyBlock. rewrite Hfailed. cbn. by rewrite Hslot.
Qed.

Lemma failed_refill_keeps_list_witness :
  recommendations
    (fetchRecommendations (Some "A")
       (NotOk "Internal Server Error" "boom")
       (Sample.showing [Sample.recB; Sample.recC]))
  = [Sample.recB; Sample.recC]
  ∧ recommendations
      (fetchRecommendations None (Thrown (ErrorObject "Failed to fetch"))
         (Sample.showing [Sample.recB; Sample.recC]))
    = [].
Proof.
  split.
  - by apply (failed_refill_keeps_list "A"
                (NotOk "Internal Server Error" "boom")
                "API error: Internal Server Error - boom"
                (Sample.showing [Sample.recB; Sample.recC])).
  - by apply (failed_refill_keeps_list "A"
                (Thrown (ErrorObject "Failed to fetch")) "Failed to fetch"
                (Sample.showing [Sample.recB; Sample.recC])).
Defined.

(** ** Empty results *)

(** C6. A request in range whose pool of candidates is empty is accepted
    and answered by the empty list; the dashboard, after its full
    fetch, has no error and shows the empty state with its message. The
    error panel is shown after a full fetch only when the fetch failed,
    with the message of that failure. *)
Theorem empty_pool_shows_empty_state
    (pol : Engine.Policy) (cat : Engine.Catalog) (age : Q)
    (completed : list string) (s : State) :
  Engine.pool pol cat age completed = [] →
  (0 <= age)%Q → (age <= 48)%Q →
  let response :=
    Service.serve pol cat
      {| baby_age_months := Finite age;
         completed_milestone_ids := completed |} in
  Engine.recommend pol cat age completed = Engine.Accepted []
  ∧ response = Ok (Some [])
  ∧ error (fetchRecommendations None response s) = None
  ∧ view (fetchRecommendations None response s)
    = Daily (NoRecommendations "No recommendations available at this time.")
  ∧ (∀ o heading message,
       view (fetchRecommendations None o s) = ErrorPanel heading message →
       settle o = inl message).
Proof.
  intros Hpool H0 H48 response.
  assert (Engine.recommend pol cat age completed = Engine.Accepted [])
    as Hanswer.
  { destruct (recommend_in_range pol cat age completed H0 H48)
      as (recs & Hrecs).
    rewrite Hrecs. f_equal. by eapply recommend_empty_pool. }
  assert (response = Ok (Some [])) as ->.
  { subst response. unfold Service.serve. cbn. by rewrite Hanswer. }
  split; [done|]. split; [done|]. split; [|split].
  - by rewrite fetchRecommendations_error.
  - unfold view. rewrite fetchRecommendations_loading,
      fetchRecommendations_error, fetchRecommendations_recommendations.
    reflexivity.
  - intros o heading message. unfold view.
    rewrite fetchRecommendations_loading, fetchRecommendations_error. cbn.
    destruct (settle o) as [msg|new]; [|done].
    destruct (truthy msg); [|done]. by intros [= _ ->].
Qed.

Lemma empty_pool_shows_empty_state_witness :
  view (fetchRecommendations None
          (Service.serve Sample.policy Sample.catalog
             {| baby_age_months := Finite 40;
                completed_milestone_ids := [] |})
          initial)
  = Daily (NoRecommendations "No recommendations available at this time.").
Proof.
  pose proof (empty_pool_shows_empty_state Sample.policy Sample.catalog 40
                [] initial) as Hthm.
  cbv zeta in Hthm.
  destruct Hthm as (_ & _ & _ & Hview & _);
    [by vm_compute | lra | lra | exact Hview].
Defined.

(** ** Score ranges *)





End Claims.

(* ===================================================================== *)
(** * Further properties of the pages                                     *)
(* ===================================================================== *)

Module PageFacts.
Import Js Types Dashboard.
Import RefillFacts DashboardFacts.

Lemma age_test_accepts (n : number) :
  in_range n → isNaN n || lt n zero || gt n forty_eight = false.
Proof.
  intros (a & -> & H0 & H48). cbn. unfold Js.Qlt_bool.
  apply Qle_bool_iff in H0, H48. by rewrite H0, H48.
Qed.

Lemma age_test_in_range (n : number) :
  isNaN n || lt n zero || gt n forty_eight = false → in_range n.
Proof.
  destruct n as [| | |q]; cbn; try done. unfold Js.Qlt_bool.
  intros Htest. exists q. split; [done|].
  destruct (Qle_bool 0 q) eqn:H0; [|done].
  destruct (Qle_bool q 48) eqn:H48; [|done].
  by apply Qle_bool_iff in H0, H48.
Qed.

Lemma loadCompleted_completedMilestones ls s :
  completedMilestones (loadCompleted ls s)
  = match Storage.completedMilestones ls with
    | Some (Storage.Json v) => v
    | _ => completedMilestones s
    end.
Proof.
  unfold loadCompleted.
  destruct (Storage.completedMilestones ls) as [[v|raw]|]; cbn;
    try destruct (truthy raw); reflexivity.
Qed.

Lemma loadJourney_journeyMilestones ls s :
  journeyMilestones (loadJourney ls s)
  = match Storage.journeyMilestones ls with
    | Some (Storage.Json v) => v
    | _ => journeyMilestones s
    end.
Proof.
  unfold loadJourney.
  destruct (Storage.journeyMilestones ls) as [[v|raw]|]; cbn;
    try destruct (truthy raw); reflexivity.
Qed.

Lemma loadJourney_other ls s :
  completedMilestones (loadJourney ls s) = completedMilestones s
  ∧ babyAge (loadJourney ls s) = babyAge s.
Proof.
  unfold loadJourney.
  destruct (Storage.journeyMilestones ls) as [[v|raw]|]; cbn;
    try destruct (truthy raw); by split.
Qed.

Lemma loadCompleted_other ls s :
  journeyMilestones (loadCompleted ls s) = journeyMilestones s
  ∧ babyAge (loadCompleted ls s) = babyAge s.
Proof.
  unfold loadCompleted.
  destruct (Storage.completedMilestones ls) as [[v|raw]|]; cbn;
    try destruct (truthy raw); by split.
Qed.

Lemma fetchStart_other slotId s :
  completedMilestones (fetchStart slotId s) = completedMilestones s
  ∧ journeyMilestones (fetchStart slotId s) = journeyMilestones s
  ∧ babyAge (fetchStart slotId s) = babyAge s
  ∧ recommendations (fetchStart slotId s) = recommendations s
  ∧ refillingSlots (fetchStart slotId s) = refillingSlots s.
Proof. unfold fetchStart. by destruct (truthy_opt slotId). Qed.

Lemma fetchSettle_refillingSlots slotId o s :
  refillingSlots (fetchSettle slotId o s)
  = match settle o, slotId with
    | inr _, Some slot =>
        if truthy slot then refillingSlots s ∖ {[slot]}
        else refillingSlots s
    | _, _ => refillingSlots s
    end.
Proof.
  unfold fetchSettle, finallyBlock.
  destruct (settle o) as [msg|new]; destruct slotId as [slot|]; cbn;
    try destruct (truthy slot); reflexivity.
Qed.

Lemma mount_accepted_state `{Runtime} ls saved :
  Storage.babyAge ls = Some saved → truthy saved = true →
  in_range (parseFloat saved) →
  mount ls
  = {| mounted_state :=
         fetchStart None
           (loadJourney ls
              (loadCompleted ls (setBabyAge (parseFloat saved) initial)));
       pushed := None;
       requests := [request (render_of initial) None] |}.
Proof.
  intros Hsaved Hfilled Hin%age_test_accepts.
  unfold mount, loadEffect. by rewrite Hsaved, Hfilled, Hin.
Qed.

(** The page an accepted stored age mounts. *)
Lemma mount_accepted `{Runtime} ls saved :
  Storage.babyAge ls = Some saved → truthy saved = true →
  in_range (parseFloat saved) →
  pushed (mount ls) = None
  ∧ babyAge (mounted_state (mount ls)) = parseFloat saved
  ∧ completedMilestones (mounted_state (mount ls))
    = match Storage.completedMilestones ls with
      | Some (Storage.Json v) => v
      | _ => []
      end
  ∧ journeyMilestones (mounted_state (mount ls))
    = match Storage.journeyMilestones ls with
      | Some (Storage.Json v) => v
      | _ => []
      end.
Proof.
  intros Hsaved Hfilled Hin.
  rewrite (mount_accepted_state ls saved Hsaved Hfilled Hin).
  cbn [mounted_state pushed].
  destruct (fetchStart_other None
              (loadJourney ls
                 (loadCompleted ls (setBabyAge (parseFloat saved) initial))))
    as (-> & -> & -> & _).
  destruct (loadJourney_other ls
              (loadCompleted ls (setBabyAge (parseFloat saved) initial)))
    as [Hc Ha].
  destruct (loadCompleted_other ls (setBabyAge (parseFloat saved) initial))
    as [Hj Ha'].
  split; [done|]. split; [by rewrite Ha, Ha'|]. split.
  - by rewrite Hc, loadCompleted_completedMilestones.
  - by rewrite loadJourney_journeyMilestones, Hj.
Qed.

Lemma filter_all {A} (P : A → Prop) `{!∀ x, Decision (P x)} (l : list A) :
  (∀ x, x ∈ l → P x) → filter P l = l.
Proof.
  induction l as [|a l IH]; [done|]. intros Hall.
  rewrite filter_cons_True by (apply Hall; by left).
  f_equal. apply IH. intros x Hx. apply Hall. by right.
Qed.

(** Removing one displayed milestone from a list without repeats takes
    exactly one entry away. *)
Lemma filter_slot_length (l : list Recommendation) (m : Recommendation) :
  NoDup (ids l) → m ∈ l →
  length (filter (λ r, milestone_id r ≠ milestone_id m) l) + 1 = length l.
Proof.
  induction l as [|a l IH]; [by intros _ ?%elem_of_nil|].
  unfold ids. rewrite fmap_cons. intros [Ha Hnd]%NoDup_cons Hm.
  destruct (decide (milestone_id a = milestone_id m)) as [Heq|Hne].
  - rewrite filter_cons_False by (intros Hne; by apply Hne).
    rewrite filter_all; [cbn; lia|].
    intros x Hx Hid. apply Ha. rewrite Heq, <- Hid.
    by apply list_elem_of_fmap_2.
  - rewrite filter_cons_True by done.
    apply elem_of_cons in Hm as [->|Hm]; [done|].
    specialize (IH Hnd Hm). cbn [length]. lia.
Qed.

Lemma NotOk_message_truthy statusText errorText :
  ∃ message,
    settle (NotOk statusText errorText) = inl message
    ∧ truthy message = true.
Proof. eexists. split; [reflexivity|]. reflexivity. Qed.

(** The two ways [handleSubmit] can end. *)
Lemma handleSubmit_cases `{Runtime} (apiUrl : string)
    (o : Landing.IntakeOutcome) (ls : Storage.t) (st : Landing.State) :
  (Landing.pushed (Landing.handleSubmit apiUrl o ls st) = None
   ∧ Landing.submitted_storage (Landing.handleSubmit apiUrl o ls st) = ls)
  ∨ (Landing.pushed (Landing.handleSubmit apiUrl o ls st)
     = Some DashboardRoute
     ∧ Landing.intake_called (Landing.handleSubmit apiUrl o ls st) = true
     ∧ in_range (parseFloat (Landing.ageMonths st))
     ∧ truthy (trim (Landing.ageMonths st)) = true
     ∧ truthy (trim (Landing.story st)) = true
     ∧ Storage.babyAge
         (Landing.submitted_storage (Landing.handleSubmit apiUrl o ls st))
       = Some (toString (parseFloat (Landing.ageMonths st)))
     ∧ (∃ l, Storage.completedMilestones
               (Landing.submitted_storage
                  (Landing.handleSubmit apiUrl o ls st))
             = Some (Storage.Json l))
     ∧ Storage.journeyMilestones
         (Landing.submitted_storage (Landing.handleSubmit apiUrl o ls st))
       = Storage.journeyMilestones ls).
Proof.
  unfold Landing.handleSubmit.
  destruct (truthy (trim (Landing.ageMonths st))) eqn:Hage; cbn [negb orb];
    [|by left].
  destruct (isNaN (parseFloat (Landing.ageMonths st))
            || lt (parseFloat (Landing.ageMonths st)) zero
            || gt (parseFloat (Landing.ageMonths st)) forty_eight)
    eqn:Htest; [by left|].
  destruct (truthy (trim (Landing.story st))) eqn:Hstory;
    cbn [negb]; [|by left].
  destruct (Landing.intakeData o) as [msg|data]; [by left|].
  right. cbn. split; [done|]. split; [done|].
  split; [by apply age_test_in_range|]. split; [done|]. split; [done|].
  split; [done|]. split; [by eexists|].
  destruct (Landing.child_name data) as [n|]; [|done].
  by destruct (truthy n).
Qed.

End PageFacts.

Module Extras.
Import Js Types Dashboard.
Import RefillFacts DashboardFacts PageFacts.

(** ** The landing page *)

(** X1. [handleSubmit] writes to localStorage only on the path that
    navigates to the dashboard. Either nothing is pushed and the storage
    is what it was, or the dashboard is pushed, the intake was called,
    the typed age is in range, the story is not blank, the age stored is
    the typed number, a completed list is stored, and the journey left
    by an earlier session is not touched. *)
Theorem submit_stores_only_when_navigating `{Runtime} (apiUrl : string)
    (o : Landing.IntakeOutcome) (ls : Storage.t) (st : Landing.State) :
  let r := Landing.handleSubmit apiUrl o ls st in
  let age := parseFloat (Landing.ageMonths st) in
  (Landing.pushed r = None ∧ Landing.submitted_storage r = ls)
  ∨ (Landing.pushed r = Some DashboardRoute
     ∧ Landing.intake_called r = true
     ∧ in_range age
     ∧ truthy (trim (Landing.ageMonths st)) = true
     ∧ truthy (trim (Landing.story st)) = true
     ∧ Storage.babyAge (Landing.submitted_storage r) = Some (toString age)
     ∧ (∃ l, Storage.completedMilestones (Landing.submitted_storage r)
             = Some (Storage.Json l))
     ∧ Storage.journeyMilestones (Landing.submitted_storage r)
       = Storage.journeyMilestones ls).
Proof. intros r age. apply handleSubmit_cases. Qed.

(** X2. With an accepted age, a story of which [trim] leaves nothing
    (empty, or only white space, whatever the runtime's [trim] counts as
    such) blocks the submission with the story message: the intake is not
    called, nothing is stored and nothing is pushed. *)
Theorem blank_story_blocks_submission `{Runtime} (apiUrl : string)
    (o : Landing.IntakeOutcome) (ls : Storage.t) (st : Landing.State) :
  truthy (trim (Landing.ageMonths st)) = true →
  in_range (parseFloat (Landing.ageMonths st)) →
  truthy (trim (Landing.story st)) = false →
  Landing.handleSubmit apiUrl o ls st
  = {| Landing.submitted_state :=
         Landing.setFollowUpQuestion
           (Some "Please tell us about your baby's recent win or what they're starting to do.")
           st;
       Landing.submitted_storage := ls;
       Landing.pushed := None;
       Landing.intake_called := false |}.
Proof.
  intros Hage Hin%age_test_accepts Hstory. unfold Landing.handleSubmit.
  rewrite Hage, Hstory. cbn [negb orb]. by rewrite Hin.
Qed.

Lemma blank_story_blocks_submission_witness :
  Landing.pushed
    (Landing.handleSubmit "http://localhost:8000"
       (Landing.IntakeOk Landing.unavailable) Storage.empty
       (Sample.typed "6.5" (" " +:+ Decimal.nbsp +:+ " ")))
  = None.
Proof.
  rewrite (blank_story_blocks_submission "http://localhost:8000"
             (Landing.IntakeOk Landing.unavailable) Storage.empty
             (Sample.typed "6.5" (" " +:+ Decimal.nbsp +:+ " ")));
    [reflexivity|reflexivity| |reflexivity].
  exists (13 # 2)%Q. split; [reflexivity|]. split; lra.
Defined.

(** X3. With an accepted age and a story of which [trim] leaves
    something, when the intake answers 503, or with a message that says
    the Intake Specialist is not available, the submission goes on with
    the typed age alone: the dashboard is pushed, the age is stored, the
    stored completed list is empty and the stored child name is left as
    it was. *)
Theorem unavailable_intake_keeps_age_only `{Runtime} (apiUrl : string)
    (status : nat) (errorMessage : string) (ls : Storage.t)
    (st : Landing.State) :
  truthy (trim (Landing.ageMonths st)) = true →
  in_range (parseFloat (Landing.ageMonths st)) →
  truthy (trim (Landing.story st)) = true →
  status = 503
  ∨ includes "Intake Specialist is not available" errorMessage = true →
  let r :=
    Landing.handleSubmit apiUrl (Landing.IntakeNotOk status errorMessage)
      ls st in
  Landing.pushed r = Some DashboardRoute
  ∧ Storage.babyAge (Landing.submitted_storage r)
    = Some (toString (parseFloat (Landing.ageMonths st)))
  ∧ Storage.completedMilestones (Landing.submitted_storage r)
    = Some (Storage.Json [])
  ∧ Storage.childName (Landing.submitted_storage r) = Storage.childName ls
  ∧ Landing.error (Landing.submitted_state r) = None.
Proof.
  intros Hage Hin%age_test_accepts Hstory Hdown r. subst r.
  unfold Landing.handleSubmit. rewrite Hage, Hstory. cbn [negb orb].
  rewrite Hin.
  assert (Landing.intakeData (Landing.IntakeNotOk status errorMessage)
          = inr Landing.unavailable) as ->; [|done].
  unfold Landing.intakeData. destruct Hdown as [->| ->]; [done|].
  by destruct (Nat.eqb status 503).
Qed.

Lemma unavailable_intake_keeps_age_only_witness :
  Storage.completedMilestones
    (Landing.submitted_storage
       (Landing.handleSubmit "http://localhost:8000"
          (Landing.IntakeNotOk 503 "Service Unavailable") Storage.empty
          (Sample.typed "6.5" "She sits.")))
  = Some (Storage.Json []).
Proof.
  apply (unavailable_intake_keeps_age_only "http://localhost:8000" 503
           "Service Unavailable" Storage.empty
           (Sample.typed "6.5" "She sits."));
    [reflexivity| |reflexivity|by left].
  exists (13 # 2)%Q. split; [reflexivity|]. split; lra.
Defined.

(** X4. What the landing page stores, the dashboard takes over: after a
    submission that pushes the dashboard, and for a runtime that reads
    back the number it printed, mounting the dashboard on the storage
    left behind does not redirect, its age is the typed number and its
    completed list is the stored one. *)
Theorem submitted_age_reaches_dashboard `{Runtime} (apiUrl : string)
    (o : Landing.IntakeOutcome) (ls : Storage.t) (st : Landing.State) :
  let r := Landing.handleSubmit apiUrl o ls st in
  let age := parseFloat (Landing.ageMonths st) in
  Landing.pushed r = Some DashboardRoute →
  truthy (toString age) = true →
  parseFloat (toString age) = age →
  pushed (mount (Landing.submitted_storage r)) = None
  ∧ babyAge (mounted_state (mount (Landing.submitted_storage r))) = age
  ∧ Storage.completedMilestones (Landing.submitted_storage r)
    = Some (Storage.Json
              (completedMilestones
                 (mounted_state (mount (Landing.submitted_storage r))))).
Proof.
  intros r age Hpushed Hprinted Hround.
  destruct (handleSubmit_cases apiUrl o ls st)
    as [[Hnone _]|(_ & _ & Hin & _ & _ & Hstored & (l & Hl) & _)].
  { fold r in Hnone. congruence. }
  fold r age in Hstored, Hl, Hin.
  assert (in_range (parseFloat (toString age))) as Hin' by by rewrite Hround.
  destruct (mount_accepted _ _ Hstored Hprinted Hin') as (Hp & Ha & Hc & _).
  split; [done|]. split; [by rewrite Ha|]. by rewrite Hc, Hl.
Qed.

Lemma submitted_age_reaches_dashboard_witness :
  babyAge
    (mounted_state
       (mount
          (Landing.submitted_storage
             (Landing.handleSubmit "http://localhost:8000"
                (Landing.IntakeOk Landing.unavailable) Storage.empty
                (Sample.typed "6.5" "She sits.")))))
  = Finite (13 # 2).
Proof.
  pose proof (submitted_age_reaches_dashboard "http://localhost:8000"
                (Landing.IntakeOk Landing.unavailable) Storage.empty
                (Sample.typed "6.5" "She sits.")) as Hthm.
  cbv zeta in Hthm.
  destruct Hthm as (_ & Hage & _); [reflexivity|reflexivity|reflexivity|].
  rewrite Hage. reflexivity.
Defined.

(** ** The dashboard and its storage *)

(** X5. Stored JSON that does not parse never blocks the dashboard: with
    an accepted stored age the page mounts without redirect and takes
    the age over; the completed list and the journey are the stored
    lists when they parse and stay empty otherwise. *)
Theorem malformed_storage_is_skipped `{Runtime} (ls : Storage.t)
    (saved : string) :
  Storage.babyAge ls = Some saved → truthy saved = true →
  in_range (parseFloat saved) →
  pushed (mount ls) = None
  ∧ babyAge (mounted_state (mount ls)) = parseFloat saved
  ∧ completedMilestones (mounted_state (mount ls))
    = match Storage.completedMilestones ls with
      | Some (Storage.Json v) => v
      | Some (Storage.Malformed _) | None => []
      end
  ∧ journeyMilestones (mounted_state (mount ls))
    = match Storage.journeyMilestones ls with
      | Some (Storage.Json v) => v
      | Some (Storage.Malformed _) | None => []
      end.
Proof.
  intros Hsaved Hfilled Hin.
  destruct (mount_accepted ls saved Hsaved Hfilled Hin) as (? & ? & Hc & Hj).
  split; [done|]. split; [done|]. split.
  - rewrite Hc. by destruct (Storage.completedMilestones ls) as [[?|?]|].
  - rewrite Hj. by destruct (Storage.journeyMilestones ls) as [[?|?]|].
Qed.

Lemma malformed_storage_is_skipped_witness :
  let ls :=
    {| Storage.babyAge := Some "6.5";
       Storage.completedMilestones := Some (Storage.Malformed "[oops");
       Storage.journeyMilestones := Some (Storage.Json [Sample.recA]);
       Storage.childName := None |} in
  pushed (mount ls) = None
  ∧ completedMilestones (mounted_state (mount ls)) = []
  ∧ journeyMilestones (mounted_state (mount ls)) = [Sample.recA].
Proof.
  intros ls.
  destruct (malformed_storage_is_skipped ls "6.5")
    as (Hp & _ & Hc & Hj); [reflexivity|reflexivity| |].
  - exists (13 # 2)%Q. split; [reflexivity|]. split; lra.
  - split; [exact Hp|]. split; [exact Hc | exact Hj].
Defined.

(** X6. A completion survives a reload. After [handleMilestoneComplete]
    and its journey timer, the stored completed list and the stored
    journey are those of the state, and a dashboard mounted on that
    storage, with an accepted stored age, starts with the same two
    lists. *)
Theorem completion_survives_reload `{Runtime} (r : Render)
    (milestone : Recommendation) (ls : Storage.t) (s : State)
    (saved : string) :
  Storage.babyAge ls = Some saved → truthy saved = true →
  in_range (parseFloat saved) →
  let c := handleMilestoneComplete r milestone ls s in
  let after :=
    fire (AddToJourney milestone) (completed_storage c) (completed_state c) in
  Storage.completedMilestones after.1.2
  = Some (Storage.Json (completedMilestones after.1.1))
  ∧ Storage.journeyMilestones after.1.2
    = Some (Storage.Json (journeyMilestones after.1.1))
  ∧ journeyMilestones after.1.1 = journeyMilestones s ++ [milestone]
  ∧ completedMilestones (mounted_state (mount after.1.2))
    = completedMilestones after.1.1
  ∧ journeyMilestones (mounted_state (mount after.1.2))
    = journeyMilestones after.1.1
  ∧ pushed (mount after.1.2) = None.
Proof.
  intros Hsaved Hfilled Hin c after.
  assert (Storage.babyAge after.1.2 = Some saved) as Hkept by done.
  destruct (mount_accepted after.1.2 saved Hkept Hfilled Hin)
    as (Hp & _ & Hc & Hj).
  split; [done|]. split; [done|]. split; [done|].
  split; [by rewrite Hc|]. split; [by rewrite Hj|]. done.
Qed.

Lemma completion_survives_reload_witness :
  let st := Sample.showing [Sample.recA; Sample.recB] in
  let c :=
    handleMilestoneComplete (render_of st) Sample.recA
      (Sample.stored_age "6.5") st in
  let after :=
    fire (AddToJourney Sample.recA) (completed_storage c)
      (completed_state c) in
  completedMilestones (mounted_state (mount after.1.2)) = ["A"]
  ∧ journeyMilestones (mounted_state (mount after.1.2)) = [Sample.recA].
Proof.
  intros st c after.
  destruct (completion_survives_reload (render_of st) Sample.recA
              (Sample.stored_age "6.5") st "6.5")
    as (_ & _ & _ & Hc & Hj & _); [reflexivity|reflexivity| |].
  - exists (13 # 2)%Q. split; [reflexivity|]. split; lra.
  - split; [exact Hc | exact Hj].
Defined.

(** X7. [handleMilestoneComplete] builds the completed list from the
    list its render saw, while it removes the card from the list of the
    moment. So two completions handled by the handler of one render, for
    milestones A and then B, leave both cards removed and both slots
    refilling, but a completed list, in the state and in the storage,
    that ends with B only: A is no longer completed, and B's refill
    request does not list A. Handled by the handler of the render after
    A's completion, B is added after A. *)
Theorem same_render_completions_keep_last (r : Render)
    (a b : Recommendation) (ls : Storage.t) (s : State) :
  milestone_id a ∉ seen_completedMilestones r →
  milestone_id a ≠ milestone_id b →
  let first := handleMilestoneComplete r a ls s in
  let second :=
    handleMilestoneComplete r b (completed_storage first)
      (completed_state first) in
  let current :=
    handleMilestoneComplete (render_of (completed_state first)) b
      (completed_storage first) (completed_state first) in
  completedMilestones (completed_state second)
  = seen_completedMilestones r ++ [milestone_id b]
  ∧ Storage.completedMilestones (completed_storage second)
    = Some (Storage.Json (seen_completedMilestones r ++ [milestone_id b]))
  ∧ (milestone_id a ∉ completedMilestones (completed_state second))
  ∧ (milestone_id a ∉ ids (recommendations (completed_state second)))
  ∧ (milestone_id b ∉ ids (recommendations (completed_state second)))
  ∧ milestone_id a ∈ refillingSlots (completed_state second)
  ∧ milestone_id b ∈ refillingSlots (completed_state second)
  ∧ (∀ delay task ls' s' req,
       (delay, task) ∈ timers second →
       (fire task ls' s').2 = Some req →
       milestone_id a ∉ completed_milestone_ids req)
  ∧ completedMilestones (completed_state current)
    = seen_completedMilestones r ++ [milestone_id a; milestone_id b].
Proof.
  intros Hnew Hne first second current.
  assert (milestone_id a ∉ seen_completedMilestones r ++ [milestone_id b])
    as Hlost.
  { intros [Hin|Hin%list_elem_of_singleton]%elem_of_app; [by apply Hnew|].
    by apply Hne. }
  split; [done|]. split; [done|]. split; [exact Hlost|].
  split; [|split; [|split; [|split; [|split]]]].
  - cbn. unfold ids.
    intros (x & Hid & Hx)%list_elem_of_fmap.
    apply list_elem_of_filter in Hx as [_ Hx].
    apply list_elem_of_filter in Hx as [Hx _]. by apply Hx.
  - cbn. apply filter_slot_ids.
  - cbn. apply elem_of_union. left. apply elem_of_union. right.
    by apply elem_of_singleton.
  - cbn. apply elem_of_union. right. by apply elem_of_singleton.
  - intros delay task ls' s' req Htimer Hreq.
    destruct (handleMilestoneComplete_requests _ _ _ _ _ _ _ _ _
                Htimer Hreq) as (_ & -> & _).
    exact Hlost.
  - subst current first. cbn. by rewrite <- app_assoc.
Qed.

Lemma same_render_completions_keep_last_witness :
  let st := Sample.showing [Sample.recA; Sample.recB; Sample.recC] in
  let first :=
    handleMilestoneComplete (render_of st) Sample.recA Storage.empty st in
  let second :=
    handleMilestoneComplete (render_of st) Sample.recB
      (completed_storage first) (completed_state first) in
  completedMilestones (completed_state second) = ["B"]
  ∧ ids (recommendations (completed_state second)) = ["C"].
Proof.
  intros st first second. split; [|by vm_compute].
  apply (same_render_completions_keep_last (render_of st) Sample.recA
           Sample.recB Storage.empty st).
  - cbn. by intros ?%elem_of_nil.
  - cbn. discriminate.
Defined.

(** ** Refilling slots and what the page shows *)

(** X8. The life of a refilling slot. A completion puts the milestone's
    id in [refillingSlots]; the timer that starts the refill leaves the
    set alone; an ok response takes the id out, replacement or not; a
    failed fetch leaves the set as it was, so the id stays in. *)
Theorem refilling_slot_lifecycle (r : Render) (milestone : Recommendation)
    (ls : Storage.t) (s : State) (o : FetchOutcome) :
  truthy (milestone_id milestone) = true →
  let slot := milestone_id milestone in
  let c := handleMilestoneComplete r milestone ls s in
  let started :=
    (fire (Refill r slot (completedMilestones (completed_state c)))
       (completed_storage c) (completed_state c)).1.1 in
  slot ∈ refillingSlots (completed_state c)
  ∧ refillingSlots started = refillingSlots (completed_state c)
  ∧ (∀ data, slot ∉ refillingSlots (fetchSettle (Some slot) (Ok data) started))
  ∧ (∀ errorMessage,
       settle o = inl errorMessage →
       refillingSlots (fetchSettle (Some slot) o started)
       = refillingSlots (completed_state c)
       ∧ slot ∈ refillingSlots (fetchSettle (Some slot) o started)).
Proof.
  intros Hslot slot c started. change (truthy slot = true) in Hslot.
  assert (slot ∈ refillingSlots (completed_state c)) as Hin.
  { cbn. apply elem_of_union. right. by apply elem_of_singleton. }
  assert (refillingSlots started = refillingSlots (completed_state c))
    as Hstarted.
  { subst started. cbn [fire fst].
    by destruct (fetchStart_other (Some slot)
                   (setAnimatingMilestone None (completed_state c)))
      as (_ & _ & _ & _ & ->). }
  split; [exact Hin|]. split; [exact Hstarted|]. split.
  - intros data. rewrite fetchSettle_refillingSlots.
    assert (settle (Ok data) = inr (default [] data)) as ->
      by by destruct data.
    rewrite Hslot. apply not_elem_of_difference. right.
    by apply elem_of_singleton.
  - intros errorMessage Hfailed.
    rewrite fetchSettle_refillingSlots, Hfailed, Hstarted. by split.
Qed.

Lemma refilling_slot_lifecycle_witness :
  let st := Sample.showing [Sample.recA; Sample.recB] in
  let c := handleMilestoneComplete (render_of st) Sample.recA
             Storage.empty st in
  "A" ∈ refillingSlots
          (fetchSettle (Some "A") (NotOk "Bad Gateway" "upstream")
             (fire (Refill (render_of st) "A" ["A"]) (completed_storage c)
                (completed_state c)).1.1).
Proof.
  intros st c.
  pose proof (refilling_slot_lifecycle (render_of st) Sample.recA
                Storage.empty st (NotOk "Bad Gateway" "upstream")) as Hthm.
  cbv zeta in Hthm.
  destruct Hthm as (_ & _ & _ & Hfailed); [reflexivity|].
  destruct (Hfailed _ eq_refl) as [_ Hin]. exact Hin.
Defined.

(** X9. A failed refill hides the cards. When the page is not loading
    and the fetch of a refill fails with a non-empty message, as every
    response that is not ok does, the page shows the error panel with
    that message, although the list of recommendations is untouched. *)
Theorem failed_refill_shows_error_panel
    (slot : string) (o : FetchOutcome) (errorMessage : string) (s : State) :
  truthy slot = true →
  loading s = false →
  settle o = inl errorMessage →
  truthy errorMessage = true →
  view (fetchRecommendations (Some slot) o s)
  = ErrorPanel "Unable to load recommendations" errorMessage
  ∧ recommendations (fetchRecommendations (Some slot) o s)
    = recommendations s
  ∧ ∀ statusText errorText,
      view (fetchRecommendations (Some slot) (NotOk statusText errorText) s)
      = ErrorPanel "Unable to load recommendations"
          ("API error: " +:+ statusText +:+ " - " +:+ errorText).
Proof.
  intros Hslot Hloading Hfailed Hmessage.
  assert (∀ o' message,
            settle o' = inl message → truthy message = true →
            view (fetchRecommendations (Some slot) o' s)
            = ErrorPanel "Unable to load recommendations" message) as Hview.
  { intros o' message Hfailed' Hmessage'. unfold view.
    rewrite fetchRecommendations_loading, fetchRecommendations_error.
    cbn [truthy_opt]. by rewrite Hslot, Hloading, Hfailed', Hmessage'. }
  split; [by apply Hview|]. split.
  - rewrite fetchRecommendations_recommendations, Hfailed.
    cbn [truthy_opt]. by rewrite Hslot.
  - intros statusText errorText. by apply Hview.
Qed.

Lemma failed_refill_shows_error_panel_witness :
  view (fetchRecommendations (Some "A") (Thrown OtherValue)
          (Sample.showing [Sample.recB; Sample.recC]))
  = ErrorPanel "Unable to load recommendations"
      "Failed to fetch recommendations".
Proof.
  by apply (failed_refill_shows_error_panel "A" (Thrown OtherValue)
              "Failed to fetch recommendations"
              (Sample.showing [Sample.recB; Sample.recC])).
Defined.

(** X10. Completing the last card shows the empty state, not a skeleton.
    When the page is neither loading nor in error and every displayed
    recommendation is the completed milestone, the page after
    [handleMilestoneComplete] shows the message of the empty list,
    although the slot is refilling. *)
Theorem last_card_completion_shows_empty_state (r : Render)
    (milestone : Recommendation) (ls : Storage.t) (s : State) :
  loading s = false → error s = None →
  (∀ rec, rec ∈ recommendations s →
          milestone_id rec = milestone_id milestone) →
  let s' := completed_state (handleMilestoneComplete r milestone ls s) in
  view s'
  = Daily (NoRecommendations "No recommendations available at this time.")
  ∧ milestone_id milestone ∈ refillingSlots s'.
Proof.
  intros Hloading Herror Hall s'. split.
  - unfold view. subst s'. cbn. rewrite Hloading, Herror.
    assert (filter (λ rec, milestone_id rec ≠ milestone_id milestone)
              (recommendations s) = []) as ->; [|done].
    induction (recommendations s) as [|a l IH]; [done|].
    rewrite filter_cons_False.
    + apply IH. intros rec Hrec. apply Hall. by right.
    + intros Hne. apply Hne, Hall. by left.
  - cbn. apply elem_of_union. right. by apply elem_of_singleton.
Qed.

Lemma last_card_completion_shows_empty_state_witness :
  let st := Sample.showing [Sample.recA] in
  view (completed_state
          (handleMilestoneComplete (render_of st) Sample.recA
             Storage.empty st))
  = Daily (NoRecommendations "No recommendations available at this time.").
Proof.
  intros st.
  apply (last_card_completion_shows_empty_state (render_of st) Sample.recA
           Storage.empty st); [reflexivity|reflexivity|].
  intros rec Hrec. cbn in Hrec.
  by apply list_elem_of_singleton in Hrec as ->.
Defined.

(** X11. The grid of [DailyRecommendations]. A non-empty list is shown
    as one card per recommendation, in order, plus one skeleton per
    refilling slot. Placeholders appear only when no slot is refilling,
    and then cards and placeholders make three as long as the list has
    at most three entries; while a slot is refilling there is no
    placeholder. *)
Theorem grid_fills_three_slots (recs : list Recommendation)
    (completed : list string) (slots : gset string) :
  recs ≠ [] →
  ∃ placeholders,
    DailyRecommendations recs completed slots
    = Cards (playCard completed <$> recs) (size slots) placeholders
    ∧ milestoneId <$> (playCard completed <$> recs) = ids recs
    ∧ (slots = ∅ → length recs ≤ 3 → length recs + placeholders = 3)
    ∧ (slots = ∅ → 3 < length recs → placeholders = 0)
    ∧ (slots ≠ ∅ → placeholders = 0).
Proof.
  intros Hne. unfold DailyRecommendations.
  destruct recs as [|rec recs]; [done|]. cbn [length Nat.eqb].
  eexists. split; [reflexivity|]. split.
  { unfold ids. rewrite <- list_fmap_compose. by apply list_fmap_ext. }
  split; [|split].
  - intros -> Hlen. rewrite size_empty. cbn [Nat.eqb andb].
    destruct (Nat.ltb_spec (S (length recs)) 3); lia.
  - intros -> Hlen. rewrite size_empty. cbn [Nat.eqb andb].
    destruct (Nat.ltb_spec (S (length recs)) 3); lia.
  - intros Hslots.
    destruct (Nat.eqb_spec (size slots) 0) as [Hsize|Hsize]; [|done].
    apply size_empty_iff in Hsize. destruct Hslots.
    by apply leibniz_equiv.
Qed.

Lemma grid_fills_three_slots_witness :
  DailyRecommendations [Sample.recB; Sample.recC] [] ∅
  = Cards (playCard [] <$> [Sample.recB; Sample.recC]) 0 1.
Proof.
  destruct (grid_fills_three_slots [Sample.recB; Sample.recC] [] ∅)
    as (placeholders & -> & _ & Hthree & _); [discriminate|].
  rewrite size_empty.
  assert (placeholders = 1) as ->; [|reflexivity].
  specialize (Hthree eq_refl). cbn in Hthree. lia.
Defined.

(** X13. A completed card is replaced, one for one. From a list of at
    most three recommendations without repeated milestones that shows
    [milestone], the completion followed by a refill whose response
    holds a milestone not displayed leaves the other recommendations in
    their order with the replacement last; the list is as long as
    before and has no repeated milestone. The page does not compare the
    replacement with the completed list: the completed milestone is
    back in the list exactly when the response offers it first. *)
Theorem completed_card_is_replaced (r : Render) (milestone rec : Recommendation)
    (newRecommendations : list Recommendation) (ls : Storage.t) (s : State) :
  truthy (milestone_id milestone) = true →
  NoDup (ids (recommendations s)) →
  length (recommendations s) ≤ 3 →
  milestone ∈ recommendations s →
  let s1 := completed_state (handleMilestoneComplete r milestone ls s) in
  availableRec newRecommendations (recommendations s1) = Some rec →
  let s2 :=
    fetchRecommendations (Some (milestone_id milestone))
      (Ok (Some newRecommendations)) s1 in
  recommendations s2
  = filter (λ x, milestone_id x ≠ milestone_id milestone) (recommendations s)
    ++ [rec]
  ∧ length (recommendations s2) = length (recommendations s)
  ∧ NoDup (ids (recommendations s2))
  ∧ (milestone_id milestone ∈ ids (recommendations s2)
     ↔ milestone_id rec = milestone_id milestone).
Proof.
  intros Hslot Hnd Hlen Hshown s1 Hav s2.
  pose proof (filter_slot_length _ _ Hnd Hshown) as Hone.
  assert (recommendations s1
          = filter (λ x, milestone_id x ≠ milestone_id milestone)
              (recommendations s)) as Hs1 by done.
  assert (recommendations s2 = recommendations s1 ++ [rec]) as Hs2.
  { subst s2. rewrite fetchRecommendations_recommendations.
    cbn [settle]. rewrite Hslot, (refillSlot_Some _ _ _ _ Hav).
    rewrite (filter_all _ (recommendations s1)).
    - apply take_ge. rewrite length_app, Hs1. cbn. lia.
    - rewrite Hs1. by intros x [? _]%list_elem_of_filter. }
  destruct (availableRec_Some _ _ _ Hav) as [_ Hfresh].
  rewrite Hs2. rewrite Hs1 in *. split; [done|]. split; [|split].
  - rewrite length_app. cbn. lia.
  - unfold ids. rewrite fmap_app. apply NoDup_app.
    split; [by apply filter_slot_NoDup|]. split; [|apply NoDup_singleton].
    intros i Hi ->%list_elem_of_singleton. by apply Hfresh.
  - unfold ids. rewrite fmap_app, elem_of_app. split.
    + intros [Hin|Hin%list_elem_of_singleton]; [|done].
      by apply (filter_slot_ids (milestone_id milestone)
                  (recommendations s)) in Hin.
    + intros Heq. right. by apply list_elem_of_singleton.
Qed.

Lemma completed_card_is_replaced_witness :
  let st := Sample.showing [Sample.recA; Sample.recB; Sample.recC] in
  let s1 :=
    completed_state
      (handleMilestoneComplete (render_of st) Sample.recA Storage.empty st) in
  ids (recommendations
         (fetchRecommendations (Some "A")
            (Ok (Some [Sample.recB; Sample.recD])) s1))
  = ["B"; "C"; "D"].
Proof.
  intros st s1.
  pose proof (completed_card_is_replaced (render_of st) Sample.recA
                Sample.recD [Sample.recB; Sample.recD] Storage.empty st)
    as Hthm.
  cbv zeta in Hthm. destruct Hthm as (Hlist & _); [reflexivity| | | | |].
  - cbn. repeat constructor; rewrite ?elem_of_cons, ?elem_of_nil;
      intuition discriminate.
  - cbn. lia.
  - by left.
  - by vm_compute.
  - etrans; [exact (f_equal ids Hlist) | by vm_compute].
Defined.

(** ** Ages at the bounds, the profile menu *)

(** X14. The age 0 is accepted and never fetched. A stored age that
    reads as zero mounts the dashboard without redirect and becomes
    its age, but the fetch effect of a render that sees a zero age sends
    nothing, while for every greater finite age it sends a request with
    that age and the completed list the render sees. *)
Theorem zero_age_is_accepted_but_not_fetched `{Runtime} (ls : Storage.t)
    (saved : string) (q : Q) (s : State) :
  Storage.babyAge ls = Some saved → truthy saved = true →
  parseFloat saved = Finite q → (q == 0)%Q →
  pushed (mount ls) = None
  ∧ babyAge (mounted_state (mount ls)) = Finite q
  ∧ fetchEffect (render_of (mounted_state (mount ls))) = None
  ∧ (∀ a, babyAge s = Finite a → (0 < a)%Q →
          fetchEffect (render_of s)
          = Some {| baby_age_months := Finite a;
                    completed_milestone_ids := completedMilestones s |})
  ∧ (∀ a, babyAge s = Finite a → (a <= 0)%Q →
          fetchEffect (render_of s) = None).
Proof.
  intros Hsaved Hfilled Hparsed Hzero.
  assert (in_range (parseFloat saved)) as Hin.
  { rewrite Hparsed. exists q. split; [done|]. split; lra. }
  destruct (mount_accepted ls saved Hsaved Hfilled Hin) as (Hp & Ha & _).
  assert (∀ s' a, babyAge s' = Finite a → (a <= 0)%Q →
                  fetchEffect (render_of s') = None) as Hnone.
  { intros s' a Hage Hle. unfold fetchEffect, render_of. cbn. rewrite Hage.
    cbn. unfold Js.Qlt_bool. apply Qle_bool_iff in Hle. by rewrite Hle. }
  split; [done|]. split; [by rewrite Ha|]. split; [|split; [|apply Hnone]].
  - apply (Hnone _ q); [by rewrite Ha | lra].
  - intros a Hage Hpos. unfold fetchEffect, render_of. cbn. rewrite Hage.
    cbn. unfold Js.Qlt_bool.
    destruct (Qle_bool a 0) eqn:Hle; [|done].
    apply Qle_bool_iff in Hle. lra.
Qed.

Lemma zero_age_is_accepted_but_not_fetched_witness :
  pushed (mount (Sample.stored_age "0")) = None
  ∧ fetchEffect (render_of (mounted_state (mount (Sample.stored_age "0"))))
    = None.
Proof.
  destruct (zero_age_is_accepted_but_not_fetched (Sample.stored_age "0")
              "0" 0%Q initial) as (Hp & _ & Hnone & _);
    [reflexivity|reflexivity|reflexivity|reflexivity|].
  split; [exact Hp | exact Hnone].
Defined.

(** X15. An age changed in the header is stored and survives a reload.
    [handleAgeChange] makes the new age the age of the page and stores
    its text, leaving the other keys alone; the header's field passes
    only ages in range; and for a runtime that reads back the number it
    printed, a dashboard mounted on the new storage does not redirect
    and has the new age. *)
Theorem header_age_change_persists `{Runtime} (inputValue : string)
    (newAge : number) (ls : Storage.t) (s : State) :
  Header.onChange inputValue = Some newAge →
  truthy (toString newAge) = true →
  parseFloat (toString newAge) = newAge →
  let after := handleAgeChange newAge ls s in
  in_range newAge
  ∧ babyAge after.1 = newAge
  ∧ Storage.babyAge after.2 = Some (toString newAge)
  ∧ Storage.completedMilestones after.2 = Storage.completedMilestones ls
  ∧ Storage.journeyMilestones after.2 = Storage.journeyMilestones ls
  ∧ pushed (mount after.2) = None
  ∧ babyAge (mounted_state (mount after.2)) = newAge.
Proof.
  intros Hchange Hprinted Hround after.
  assert (in_range newAge) as Hin.
  { unfold Header.onChange in Hchange.
    destruct (String.eqb inputValue EmptyString || String.eqb inputValue ".");
      [done|].
    cbv zeta in Hchange.
    destruct (negb (isNaN (parseFloat inputValue))
              && ge (parseFloat inputValue) zero
              && le (parseFloat inputValue) forty_eight) eqn:Htest; [|done].
    injection Hchange as <-.
    destruct (parseFloat inputValue) as [| | |a]; try done.
    cbn in Htest. apply andb_true_iff in Htest as [H0 H48].
    exists a. split; [done|]. by apply Qle_bool_iff in H0, H48. }
  assert (in_range (parseFloat (toString newAge))) as Hin'
    by by rewrite Hround.
  destruct (mount_accepted after.2 (toString newAge) eq_refl Hprinted Hin')
    as (Hp & Ha & _).
  repeat split; try done. by rewrite Ha.
Qed.

Lemma header_age_change_persists_witness :
  babyAge
    (mounted_state
       (mount (handleAgeChange (Finite 12) (Sample.stored_age "6.5")
                 initial).2))
  = Finite 12.
Proof.
  apply (header_age_change_persists "12" (Finite 12)
           (Sample.stored_age "6.5") initial); reflexivity.
Defined.

(** X16. Both ways out of the profile menu end on the landing page.
    Clear All removes the four keys, empties the completed list, the
    journey and the recommendations, sets the age back to 3 and pushes
    the landing page, leaving the refilling slots and the error of the
    page as they are; Reset Progress removes the age, the completed
    list and the journey but keeps the child's name, and the page it
    reloads redirects to the landing page. *)
Theorem profile_menu_leads_to_landing `{Runtime} (ls : Storage.t)
    (s : State) :
  let cleared := Profile.handleClearAll ls s in
  let reset := Profile.resetProgress ls in
  cleared.1.2 = Storage.empty
  ∧ cleared.2 = Some LandingRoute
  ∧ completedMilestones cleared.1.1 = []
  ∧ journeyMilestones cleared.1.1 = []
  ∧ recommendations cleared.1.1 = []
  ∧ babyAge cleared.1.1 = three
  ∧ refillingSlots cleared.1.1 = refillingSlots s
  ∧ error cleared.1.1 = error s
  ∧ pushed (mount cleared.1.2) = Some LandingRoute
  ∧ Storage.childName reset.1 = Storage.childName ls
  ∧ Storage.babyAge reset.1 = None
  ∧ Storage.completedMilestones reset.1 = None
  ∧ Storage.journeyMilestones reset.1 = None
  ∧ pushed reset.2 = Some LandingRoute
  ∧ completedMilestones (mounted_state reset.2) = [].
Proof. intros cleared reset. by repeat split. Qed.

(** X17. The loading skeleton and the fetches. A full fetch shows the
    skeleton from its start and never after it has settled, whatever the
    outcome; a refill leaves the loading flag alone at its start and
    when it settles. *)
Theorem full_fetch_ends_loading (slot : string) (o : FetchOutcome)
    (s : State) :
  truthy slot = true →
  view (fetchStart None s) = LoadingSkeleton
  ∧ loading (fetchSettle None o s) = false
  ∧ view (fetchSettle None o s) ≠ LoadingSkeleton
  ∧ view (fetchRecommendations None o s) ≠ LoadingSkeleton
  ∧ loading (fetchStart (Some slot) s) = loading s
  ∧ loading (fetchSettle (Some slot) o s) = loading s.
Proof.
  intros Hslot.
  assert (loading (fetchSettle None o s) = false) as Hdone.
  { unfold fetchSettle, finallyBlock. by destruct (settle o). }
  assert (∀ s', loading s' = false → view s' ≠ LoadingSkeleton) as Hview.
  { intros s' Hs'. unfold view. rewrite Hs'.
    destruct (error s') as [m|]; [|done]. by destruct (truthy m). }
  split; [done|]. split; [done|]. split; [by apply Hview|].
  split; [apply Hview; by rewrite fetchRecommendations_loading|]. split.
  - unfold fetchStart. cbn [truthy_opt]. by rewrite Hslot.
  - unfold fetchSettle, finallyBlock. cbn [truthy_opt].
    destruct (settle o); by rewrite Hslot.
Qed.

Lemma full_fetch_ends_loading_witness :
  view (fetchRecommendations None (NotOk "Bad Gateway" "upstream") initial)
  ≠ LoadingSkeleton.
Proof.
  by apply (full_fetch_ends_loading "A" (NotOk "Bad Gateway" "upstream")
              initial).
Defined.

(** ** Failures and missing fields *)

Lemma userFriendlyMessage_truthy (apiUrl errorMessage : string) :
  truthy (Landing.userFriendlyMessage apiUrl errorMessage) = true.
Proof.
  unfold Landing.userFriendlyMessage.
  destruct (_ || _); [done|]. destruct (_ || _); [done|].
  destruct (_ || _); [|done]. by destruct (includes "localhost" apiUrl).
Qed.

(** X18. A failed intake is reported and the form is usable again. With
    an accepted age and a story of which [trim] leaves something, when
    the intake ends in an error that is not the unavailable case, nothing
    is stored or pushed, the form is no longer processing, the follow-up
    question is cleared, and the error to show is a message that is never
    empty. *)
Theorem failed_intake_is_reported `{Runtime} (apiUrl : string)
    (o : Landing.IntakeOutcome) (errorMessage : string) (ls : Storage.t)
    (st : Landing.State) :
  truthy (trim (Landing.ageMonths st)) = true →
  in_range (parseFloat (Landing.ageMonths st)) →
  truthy (trim (Landing.story st)) = true →
  Landing.intakeData o = inl errorMessage →
  let r := Landing.handleSubmit apiUrl o ls st in
  Landing.pushed r = None
  ∧ Landing.submitted_storage r = ls
  ∧ Landing.intake_called r = true
  ∧ Landing.isProcessing (Landing.submitted_state r) = false
  ∧ Landing.followUpQuestion (Landing.submitted_state r) = None
  ∧ Landing.error (Landing.submitted_state r)
    = Some (Landing.userFriendlyMessage apiUrl errorMessage)
  ∧ truthy (Landing.userFriendlyMessage apiUrl errorMessage) = true.
Proof.
  intros Hage Hin%age_test_accepts Hstory Hfailed r. subst r.
  unfold Landing.handleSubmit. rewrite Hage, Hstory. cbn [negb orb].
  rewrite Hin, Hfailed. cbn.
  repeat split. apply userFriendlyMessage_truthy.
Qed.

Lemma failed_intake_is_reported_witness :
  Landing.error
    (Landing.submitted_state
       (Landing.handleSubmit "https://api.example.org"
          (Landing.IntakeThrown (ErrorObject "Failed to fetch"))
          Storage.empty (Sample.typed "6.5" "She sits.")))
  = Some "Unable to connect to the backend at https://api.example.org. Please check the connection or try again later.".
Proof.
  pose proof (failed_intake_is_reported "https://api.example.org"
                (Landing.IntakeThrown (ErrorObject "Failed to fetch"))
                "Failed to fetch" Storage.empty
                (Sample.typed "6.5" "She sits.")) as Hthm.
  cbv zeta in Hthm.
  destruct Hthm as (_ & _ & _ & _ & _ & Herror & _);
    [reflexivity| |reflexivity|reflexivity|].
  - exists (13 # 2)%Q. split; [reflexivity|]. split; lra.
  - rewrite Herror. reflexivity.
Defined.

(** X19. A response without the [recommendations] field counts as an
    empty list: a full fetch then shows the empty state without error,
    and a refill just drops the slot's milestone from the list. *)
Theorem missing_recommendations_field_is_empty (slot : string) (s : State) :
  truthy slot = true →
  fetchRecommendations None (Ok None) s
  = fetchRecommendations None (Ok (Some [])) s
  ∧ view (fetchRecommendations None (Ok None) s)
    = Daily (NoRecommendations "No recommendations available at this time.")
  ∧ error (fetchRecommendations (Some slot) (Ok None) s) = None
  ∧ recommendations (fetchRecommendations (Some slot) (Ok None) s)
    = filter (λ r, milestone_id r ≠ slot) (recommendations s).
Proof.
  intros Hslot. split; [done|]. split; [|split].
  - unfold view. rewrite fetchRecommendations_loading,
      fetchRecommendations_error, fetchRecommendations_recommendations.
    reflexivity.
  - by rewrite fetchRecommendations_error.
  - rewrite fetchRecommendations_recommendations. cbn [settle].
    rewrite Hslot. apply refillSlot_None, availableRec_None.
    by intros rec ?%elem_of_nil.
Qed.

Lemma missing_recommendations_field_is_empty_witness :
  recommendations
    (fetchRecommendations (Some "B") (Ok None)
       (Sample.showing [Sample.recB; Sample.recC]))
  = [Sample.recC].
Proof.
  destruct (missing_recommendations_field_is_empty "B"
              (Sample.showing [Sample.recB; Sample.recC]))
    as (_ & _ & _ & Hlist); [reflexivity|].
  rewrite Hlist. by vm_compute.
Defined.

End Extras.
